(** * Florida2000: reading punched cards from scanned images

    A shallow embedding of [florida2000.py] (class [PunchedCard] and the
    table [HOLLERITH_TO_EBCDIC]) together with the properties of the
    reader that are established about it.

    Conventions of the embedding:
    - Python [int] is [Z]; a numpy axis index or slice bound is a [Z]
      that is normalised the way numpy does it (negative values count
      from the end, slices are clipped, integer indices out of range
      raise [IndexError]).
    - The image [self.im] is a record holding its shape and a pixel
      function; in-place writes produce the updated image, which is
      threaded through the calls.
    - Python [float] is an abstract type with the operations the code
      uses (class [PyFloat]); [scipy.stats.linregress] and
      [imageio.v3.imread] are parameters.
    - A call that can raise returns a [result]: the value, or the
      exception raised.
    - The Python [dict] is a [gmap Z Z]. *)

From Stdlib Require Import ZArith String Ascii List Lia QArith.
From stdpp Require Import base tactics option list gmap.

#[local] Open Scope Z_scope.

(** ** Exceptions *)

(** The exceptions of the reader: [IndexError] from an integer index out
    of range, [ValueError] and [OverflowError] from [int(x)] on a float
    that is not a number or is infinite, and, by the name of its class,
    any other exception that a library call ([imread], [linregress])
    raises. *)
Inductive exn : Type :=
| IndexError
| ValueError
| OverflowError
| OtherError (name : string).

Inductive result (A : Type) : Type :=
| Ok (a : A)
| Raise (e : exn).
Arguments Ok {A} a.
Arguments Raise {A} e.

(** The value returned, or [d] when an exception was raised. *)
Definition value_or {A : Type} (d : A) (m : result A) : A :=
  match m with
  | Ok a => a
  | Raise _ => d
  end.

#[global] Instance result_ret : MRet result := fun A a => Ok a.

#[global] Instance result_bind : MBind result := fun A B k m =>
  match m with
  | Ok a => k a
  | Raise e => Raise e
  end.

(** [for a in l: st = body(st, a)], stopping at the first exception. *)
Fixpoint for_each {A S : Type} (body : S -> A -> result S) (l : list A) (st : S)
  : result S :=
  match l with
  | [] => Ok st
  | a :: l' => st' ← body st a; for_each body l' st'
  end.

(** ** The table [HOLLERITH_TO_EBCDIC] *)

(** A binary literal [0b...], written as its digit string. *)
Fixpoint bin_digits (s : string) (acc : Z) : Z :=
  match s with
  | EmptyString => acc
  | String c s' => bin_digits s' (2 * acc + (if Ascii.eqb c "1"%char then 1 else 0))
  end.

Definition bin (s : string) : Z := bin_digits s 0.

(** The [key: value] pairs of the dict display, in source order. *)
Definition HOLLERITH_TO_EBCDIC_items : list (Z * Z) := [
    (bin "101100000011", 0x00); (bin "100100000001", 0x01); (bin "100010000001", 0x02); (bin "100001000001", 0x03);
    (bin "100000100001", 0x04); (bin "100000010001", 0x05); (bin "100000001001", 0x06); (bin "100000000101", 0x07);
    (bin "100000000011", 0x08); (bin "100100000011", 0x09); (bin "100010000011", 0x0a); (bin "100001000011", 0x0b);
    (bin "100000100011", 0x0c); (bin "100000010011", 0x0d); (bin "100000001011", 0x0e); (bin "100000000111", 0x0f);
    (bin "110100000011", 0x10); (bin "010100000001", 0x11); (bin "010010000001", 0x12); (bin "010001000001", 0x13);
    (bin "010000100001", 0x14); (bin "010000010001", 0x15); (bin "010000001001", 0x16); (bin "010000000101", 0x17);
    (bin "010000000011", 0x18); (bin "010100000011", 0x19); (bin "010010000011", 0x1a); (bin "010001000011", 0x1b);
    (bin "010000100011", 0x1c); (bin "010000010011", 0x1d); (bin "010000001011", 0x1e); (bin "010000000111", 0x1f);
    (bin "011100000011", 0x20); (bin "001100000001", 0x21); (bin "001010000001", 0x22); (bin "001001000001", 0x23);
    (bin "001000100001", 0x24); (bin "001000010001", 0x25); (bin "001000001001", 0x26); (bin "001000000101", 0x27);
    (bin "001000000011", 0x28); (bin "001100000011", 0x29); (bin "001010000011", 0x2a); (bin "001001000011", 0x2b);
    (bin "001000100011", 0x2c); (bin "001000010011", 0x2d); (bin "001000001011", 0x2e); (bin "001000000111", 0x2f);
    (bin "111100000011", 0x30); (bin "000100000001", 0x31); (bin "000010000001", 0x32); (bin "000001000001", 0x33);
    (bin "000000100001", 0x34); (bin "000000010001", 0x35); (bin "000000001001", 0x36); (bin "000000000101", 0x37);
    (bin "000000000011", 0x38); (bin "000100000011", 0x39); (bin "000010000011", 0x3a); (bin "000001000011", 0x3b);
    (bin "000000100011", 0x3c); (bin "000000010011", 0x3d); (bin "000000001011", 0x3e); (bin "000000000111", 0x3f);
    (bin "000000000000", 0x40); (bin "101100000001", 0x41); (bin "101010000001", 0x42); (bin "101001000001", 0x43);
    (bin "101000100001", 0x44); (bin "101000010001", 0x45); (bin "101000001001", 0x46); (bin "101000000101", 0x47);
    (bin "101000000011", 0x48); (bin "100100000010", 0x49); (bin "100010000010", 0x4a); (bin "100001000010", 0x4b);
    (bin "100000100010", 0x4c); (bin "100000010010", 0x4d); (bin "100000001010", 0x4e); (bin "100000000110", 0x4f);
    (bin "100000000000", 0x50); (bin "110100000001", 0x51); (bin "110010000001", 0x52); (bin "110001000001", 0x53);
    (bin "110000100001", 0x54); (bin "110000010001", 0x55); (bin "110000001001", 0x56); (bin "110000000101", 0x57);
    (bin "110000000011", 0x58); (bin "010100000010", 0x59); (bin "010010000010", 0x5a); (bin "010001000010", 0x5b);
    (bin "010000100010", 0x5c); (bin "010000010010", 0x5d); (bin "010000001010", 0x5e); (bin "010000000110", 0x5f);
    (bin "010000000000", 0x60); (bin "001100000000", 0x61); (bin "011010000001", 0x62); (bin "011001000001", 0x63);
    (bin "011000100001", 0x64); (bin "011000010001", 0x65); (bin "011000001001", 0x66); (bin "011000000101", 0x67);
    (bin "011000000011", 0x68); (bin "001100000010", 0x69); (bin "110000000000", 0x6a); (bin "001001000010", 0x6b);
    (bin "001000100010", 0x6c); (bin "001000010010", 0x6d); (bin "001000001010", 0x6e); (bin "001000000110", 0x6f);
    (bin "111000000000", 0x70); (bin "111100000001", 0x71); (bin "111010000001", 0x72); (bin "111001000001", 0x73);
    (bin "111000100001", 0x74); (bin "111000010001", 0x75); (bin "111000001001", 0x76); (bin "111000000101", 0x77);
    (bin "111000000011", 0x78); (bin "000100000010", 0x79); (bin "000010000010", 0x7a); (bin "000001000010", 0x7b);
    (bin "000000100010", 0x7c); (bin "000000010010", 0x7d); (bin "000000001010", 0x7e); (bin "000000000110", 0x7f);
    (bin "101100000010", 0x80); (bin "101100000000", 0x81); (bin "101010000000", 0x82); (bin "101001000000", 0x83);
    (bin "101000100000", 0x84); (bin "101000010000", 0x85); (bin "101000001000", 0x86); (bin "101000000100", 0x87);
    (bin "101000000010", 0x88); (bin "101000000001", 0x89); (bin "101010000010", 0x8a); (bin "101001000010", 0x8b);
    (bin "101000100010", 0x8c); (bin "101000010010", 0x8d); (bin "101000001010", 0x8e); (bin "101000000110", 0x8f);
    (bin "110100000010", 0x90); (bin "110100000000", 0x91); (bin "110010000000", 0x92); (bin "110001000000", 0x93);
    (bin "110000100000", 0x94); (bin "110000010000", 0x95); (bin "110000001000", 0x96); (bin "110000000100", 0x97);
    (bin "110000000010", 0x98); (bin "110000000001", 0x99); (bin "110010000010", 0x9a); (bin "110001000010", 0x9b);
    (bin "110000100010", 0x9c); (bin "110000010010", 0x9d); (bin "110000001010", 0x9e); (bin "110000000110", 0x9f);
    (bin "011100000010", 0xa0); (bin "011100000000", 0xa1); (bin "011010000000", 0xa2); (bin "011001000000", 0xa3);
    (bin "011000100000", 0xa4); (bin "011000010000", 0xa5); (bin "011000001000", 0xa6); (bin "011000000100", 0xa7);
    (bin "011000000010", 0xa8); (bin "011000000001", 0xa9); (bin "011010000010", 0xaa); (bin "011001000010", 0xab);
    (bin "011000100010", 0xac); (bin "011000010010", 0xad); (bin "011000001010", 0xae); (bin "011000000110", 0xaf);
    (bin "111100000010", 0xb0); (bin "111100000000", 0xb1); (bin "111010000000", 0xb2); (bin "111001000000", 0xb3);
    (bin "111000100000", 0xb4); (bin "111000010000", 0xb5); (bin "111000001000", 0xb6); (bin "111000000100", 0xb7);
    (bin "111000000010", 0xb8); (bin "111000000001", 0xb9); (bin "111010000010", 0xba); (bin "111001000010", 0xbb);
    (bin "111000100010", 0xbc); (bin "111000010010", 0xbd); (bin "111000001010", 0xbe); (bin "111000000110", 0xbf);
    (bin "101000000000", 0xc0); (bin "100100000000", 0xc1); (bin "100010000000", 0xc2); (bin "100001000000", 0xc3);
    (bin "100000100000", 0xc4); (bin "100000010000", 0xc5); (bin "100000001000", 0xc6); (bin "100000000100", 0xc7);
    (bin "100000000010", 0xc8); (bin "100000000001", 0xc9); (bin "101010000011", 0xca); (bin "101001000011", 0xcb);
    (bin "101000100011", 0xcc); (bin "101000010011", 0xcd); (bin "101000001011", 0xce); (bin "101000000111", 0xcf);
    (bin "011000000000", 0xd0); (bin "010100000000", 0xd1); (bin "010010000000", 0xd2); (bin "010001000000", 0xd3);
    (bin "010000100000", 0xd4); (bin "010000010000", 0xd5); (bin "010000001000", 0xd6); (bin "010000000100", 0xd7);
    (bin "010000000010", 0xd8); (bin "010000000001", 0xd9); (bin "110010000011", 0xda); (bin "110001000011", 0xdb);
    (bin "110000100011", 0xdc); (bin "110000010011", 0xdd); (bin "110000001011", 0xde); (bin "110000000111", 0xdf);
    (bin "001010000010", 0xe0); (bin "011100000001", 0xe1); (bin "001010000000", 0xe2); (bin "001001000000", 0xe3);
    (bin "001000100000", 0xe4); (bin "001000010000", 0xe5); (bin "001000001000", 0xe6); (bin "001000000100", 0xe7);
    (bin "001000000010", 0xe8); (bin "001000000001", 0xe9); (bin "011010000011", 0xea); (bin "011001000011", 0xeb);
    (bin "011000100011", 0xec); (bin "011000010011", 0xed); (bin "011000001011", 0xee); (bin "011000000111", 0xef);
    (bin "001000000000", 0xf0); (bin "000100000000", 0xf1); (bin "000010000000", 0xf2); (bin "000001000000", 0xf3);
    (bin "000000100000", 0xf4); (bin "000000010000", 0xf5); (bin "000000001000", 0xf6); (bin "000000000100", 0xf7);
    (bin "000000000010", 0xf8); (bin "000000000001", 0xf9); (bin "111010000011", 0xfa); (bin "111001000011", 0xfb);
    (bin "111000100011", 0xfc); (bin "111000010011", 0xfd); (bin "111000001011", 0xfe); (bin "111000000111", 0xff)
  ].

(** A dict display inserts its pairs from left to right, a later pair
    replacing an earlier one with the same key. *)
Definition dict_of_items (items : list (Z * Z)) : gmap Z Z :=
  fold_left (fun d kv => <[kv.1 := kv.2]> d) items ∅.

Definition HOLLERITH_TO_EBCDIC : gmap Z Z :=
  dict_of_items HOLLERITH_TO_EBCDIC_items.

(** [d.get(k, default)] *)
Definition dict_get (d : gmap Z Z) (k default : Z) : Z :=
  match d !! k with
  | Some v => v
  | None => default
  end.

(** ** Class constants of [PunchedCard] *)

Definition DPI : Z := 150.
Definition EDGE_WIN : Z := 10.
Definition EXPECT_LEFT_EDGE : Z := 50.
Definition EXPECT_RIGHT_EDGE : Z := -50.
Definition HOLE_Y : Z := 3.
Definition HOLE_X : Z := 6.
Definition THRESHOLD : Z := 50.

(** ** Ranges and sums *)

(** [range(a, b)] *)
Definition range (a b : Z) : list Z := seqZ a (b - a).

(** [range(a, b, s)] for a step [s > 0] *)
Definition range_step (a b s : Z) : list Z :=
  (fun i => a + s * i) <$> seqZ 0 ((b - a + s - 1) / s).

(** [range(a, b, -1)] *)
Definition range_down (a b : Z) : list Z :=
  (fun i => a - i) <$> seqZ 0 (a - b).

Definition Zsum (l : list Z) : Z := foldr Z.add 0 l.

(** ** The image [self.im]

    [imageio.v3.imread] yields an array of shape [(H, W)] for a greyscale
    file and [(H, W, C)] for a colour file. [pix im r c k] is the sample
    of channel [k] at row [r], column [c]; a greyscale image has its one
    sample at [k = 0]. *)

Record image : Type := Image {
  shape0 : Z;
  shape1 : Z;
  shape2 : option Z;
  pix : Z -> Z -> Z -> Z
}.

Definition channels (im : image) : Z :=
  match shape2 im with
  | Some c => c
  | None => 1
  end.

(** The sum of what [im[r, c]] holds: one sample, or [C] of them. *)
Definition pixel_sum (im : image) (r c : Z) : Z :=
  Zsum (pix im r c <$> range 0 (channels im)).

(** A slice bound on an axis of length [n]: a negative bound counts from
    the end, and the result is clipped to [0 .. n]. *)
Definition slice_bound (n i : Z) : Z :=
  if i <? 0 then Z.max 0 (i + n) else Z.min i n.

(** The indices selected by [lo:hi] on an axis of length [n]. *)
Definition slice (n lo hi : Z) : list Z :=
  range (slice_bound n lo) (slice_bound n hi).

(** An integer index on an axis of length [n]. *)
Definition index (n i : Z) : result Z :=
  if (0 <=? i) && (i <? n) then Ok i
  else if (- n <=? i) && (i <? 0) then Ok (i + n)
  else Raise IndexError.

(** [self.im[y][lo:hi].astype(int).sum()], for a row [0 <= y < ymax] *)
Definition row_sum (im : image) (y lo hi : Z) : Z :=
  Zsum (pixel_sum im y <$> slice (shape1 im) lo hi).

(** [self.im[rlo:rhi, clo:chi].sum()] *)
Definition window_sum (im : image) (rlo rhi clo chi : Z) : Z :=
  Zsum ((fun r => row_sum im r clo chi) <$> slice (shape0 im) rlo rhi).

(** [self.im[r, c] = v] (every channel of the pixel receives [v]) *)
Definition set_pixel (im : image) (r c v : Z) : result image :=
  r' ← index (shape0 im) r;
  c' ← index (shape1 im) c;
  Ok {| shape0 := shape0 im; shape1 := shape1 im; shape2 := shape2 im;
        pix := fun i j k => if (i =? r') && (j =? c') then v else pix im i j k |}.

(** [self.im[rlo:rhi, clo:chi] //= 3] followed by [... += 128]. Samples
    are 8-bit, so the sum stays below 256 and does not wrap. *)
Definition shade_window (im : image) (rlo rhi clo chi : Z) : image :=
  let r0 := slice_bound (shape0 im) rlo in
  let r1 := slice_bound (shape0 im) rhi in
  let c0 := slice_bound (shape1 im) clo in
  let c1 := slice_bound (shape1 im) chi in
  {| shape0 := shape0 im; shape1 := shape1 im; shape2 := shape2 im;
     pix := fun i j k =>
       if (r0 <=? i) && (i <? r1) && (c0 <=? j) && (j <? c1)
       then pix im i j k / 3 + 128
       else pix im i j k |}.

(** [stipple]: helper to create stippled lines when debugging *)
Definition stipple (x : Z) : Z :=
  if Z.land x 8 =? 0 then 0 else 255.

(** ** [measure_skew]: the per-row edge searches *)

(** The score [light - dark] of a candidate [x] in the search for the
    left edge on row [y]. *)
Definition left_score (im : image) (y x : Z) : Z :=
  let light := row_sum im y x (x + EDGE_WIN) in
  let dark := row_sum im y (x - EDGE_WIN) x in
  light - dark.

(** The same for the right edge, with [light] and [dark] exchanged. *)
Definition right_score (im : image) (y x : Z) : Z :=
  let dark := row_sum im y x (x + EDGE_WIN) in
  let light := row_sum im y (x - EDGE_WIN) x in
  light - dark.

(** One iteration of [if score > pk: pk = score; best = x], the state
    being [(best, pk)]. *)
Definition keep_peak {A : Type} (score : A -> Z) (st : A * Z) (x : A) : A * Z :=
  if st.2 <? score x then (x, score x) else st.

Definition find_peak {A : Type} (score : A -> Z) (cands : list A) (init : A * Z)
  : A * Z :=
  fold_left (keep_peak score) cands init.

(** [xl = 0; pk = 0; for x in range(cl - EDGE_WIN, cl + EDGE_WIN): ...],
    and the same for [xr] around [cr]. *)
Definition search_left (im : image) (y cl : Z) : Z :=
  (find_peak (left_score im y) (range (cl - EDGE_WIN) (cl + EDGE_WIN)) (0, 0)).1.

Definition search_right (im : image) (y cr : Z) : Z :=
  (find_peak (right_score im y) (range (cr - EDGE_WIN) (cr + EDGE_WIN)) (0, 0)).1.

(** [int(c + (x - c) * .125)]. The factor is a power of two and the
    operands are pixel coordinates, so both floating-point operations are
    exact; [int] truncates toward zero. *)
Definition lowpass (c x : Z) : Z := Z.quot (8 * c + (x - c)) 8.

Record skew_state : Type := SkewState {
  ys : list Z;
  left : list Z;
  right : list Z;
  cl : Z;
  cr : Z
}.

(** The body of [for y in range(100, self.ymax - 200, 100)]. *)
Definition skew_step (im : image) (st : skew_state) (y : Z) : skew_state :=
  let xl := search_left im y (cl st) in
  let xr := search_right im y (cr st) in
  {| ys := ys st ++ [y];
     left := left st ++ [xl];
     right := right st ++ [xr];
     cl := lowpass (cl st) xl;
     cr := lowpass (cr st) (cr st) |}.

Definition skew_init (im : image) : skew_state :=
  {| ys := []; left := []; right := [];
     cl := EXPECT_LEFT_EDGE;
     cr := shape1 im + EXPECT_RIGHT_EDGE |}.

Definition skew_rows (im : image) : list Z := range_step 100 (shape0 im - 200) 100.

Definition skew_loop (im : image) : skew_state :=
  fold_left (skew_step im) (skew_rows im) (skew_init im).

(** ** [is_hole] *)

(** The sentinel [w = 9e9]. *)
Definition W_INIT : Z := 9000000000.

(** [for dx in (-1, 0, 1): for dy in (-2, -1, 0, 1, 2)] *)
Definition offsets : list (Z * Z) :=
  flat_map (fun dx => (fun dy => (dx, dy)) <$> [-2; -1; 0; 1; 2]) [-1; 0; 1].

(** The local function [ww(dx, dy)] of [is_hole(x, y)]. *)
Definition ww (im : image) (x y : Z) (off : Z * Z) : Z :=
  let dy := off.2 + y in
  let dx := off.1 + x in
  window_sum im (dy - HOLE_Y) (dy + HOLE_Y + 1) (dx - HOLE_X) (dx + HOLE_X + 1).

(** One iteration of [if w2 < w: w = w2; off = (dx, dy)], the state being
    [(w, off)]. *)
Definition keep_least (score : Z * Z -> Z) (st : Z * (Z * Z)) (o : Z * Z)
  : Z * (Z * Z) :=
  if score o <? st.1 then (score o, o) else st.

Definition search_offsets (im : image) (x y : Z) : Z * (Z * Z) :=
  fold_left (keep_least (ww im x y)) offsets (W_INIT, (0, 0)).

(** [self.threshold], as computed in [__init__] *)
Definition threshold (im : image) : Z :=
  let t := (2 * HOLE_X + 1) * (2 * HOLE_Y + 1) * THRESHOLD in
  match shape2 im with
  | Some c => t * c
  | None => t
  end.

(** The white outline drawn where a hole was found. *)
Definition draw_outline (im : image) (x y : Z) (off : Z * Z) : result image :=
  let ry := y + off.1 in
  let rx := x + off.2 in
  im ← for_each (fun im dx =>
          im ← set_pixel im (ry + HOLE_Y) (rx + dx) 255;
          im ← set_pixel im (ry + HOLE_Y) (rx - dx) 255;
          im ← set_pixel im (ry - HOLE_Y) (rx + dx) 255;
          set_pixel im (ry - HOLE_Y) (rx - dx) 255)
        (range 0 (HOLE_X + 1)) im;
  for_each (fun im dy =>
          im ← set_pixel im (ry + dy) (rx - HOLE_X) 255;
          im ← set_pixel im (ry - dy) (rx - HOLE_X) 255;
          im ← set_pixel im (ry + dy) (rx + HOLE_X) 255;
          set_pixel im (ry - dy) (rx + HOLE_X) 255)
        (range 0 (HOLE_Y + 1)) im.

(** What [is_hole] returns: [(hole, weight, dx, dy)]. *)
Record verdict : Type := Verdict {
  hole : Z;
  weight : Z;
  off_dx : Z;
  off_dy : Z
}.

(** [is_hole(x, y)]; [debug] is the truth value of [self.debug]. The
    result carries the image as the call leaves it. *)
Definition is_hole (debug : bool) (im : image) (x y : Z) : result (image * verdict) :=
  let '(w, off) := search_offsets im x y in
  if w <? threshold im then
    im' ← draw_outline im x y off;
    Ok (im', {| hole := 1; weight := w; off_dx := off.1; off_dy := off.2 |})
  else
    let im' :=
      if debug
      then shade_window im (y - HOLE_Y) (y + HOLE_Y + 1) (x - HOLE_X) (x + HOLE_X + 1)
      else im in
    Ok (im', {| hole := 0; weight := 0; off_dx := 0; off_dy := 0 |}).

(** ** Python floats

    The operations of [float] that the reader uses. [of_int] is the
    conversion of an [int] operand, [of_dec m e] the literal [m * 10^e]
    (so [.25] is [of_dec 25 (-2)]), and [trunc] is [int(x)], which
    raises [ValueError] when [x] is not a number and [OverflowError]
    when it is infinite. *)

Class PyFloat (F : Type) : Type := {
  fadd : F -> F -> F;
  fsub : F -> F -> F;
  fmul : F -> F -> F;
  of_int : Z -> F;
  of_dec : Z -> Z -> F;
  trunc : F -> result Z
}.

Declare Scope pyfloat_scope.
Delimit Scope pyfloat_scope with F.
Infix "+~" := fadd (at level 50, left associativity) : pyfloat_scope.
Infix "-~" := fsub (at level 50, left associativity) : pyfloat_scope.
Infix "*~" := fmul (at level 40, left associativity) : pyfloat_scope.
#[local] Open Scope pyfloat_scope.

(** The two attributes of a [linregress] result that are read. *)
Record linreg (F : Type) : Type := LinReg {
  slope : F;
  intercept : F
}.
Arguments LinReg {F} _ _.
Arguments slope {F} _.
Arguments intercept {F} _.

(** The state of [find_holes] between two cells. *)
Record scan_state (F : Type) : Type := ScanState {
  s_im : image;
  delta_x : F;
  delta_y : F
}.
Arguments ScanState {F} _ _ _.
Arguments s_im {F} _.
Arguments delta_x {F} _.
Arguments delta_y {F} _.

(** The attributes of a constructed [PunchedCard]. *)
Record card (F : Type) : Type := Card {
  c_im : image;
  lrl : linreg F;
  lrr : linreg F;
  y_front : Z;
  holes : list (list Z);
  values : list Z
}.
Arguments Card {F} _ _ _ _ _ _.
Arguments c_im {F} _.
Arguments lrl {F} _.
Arguments lrr {F} _.
Arguments y_front {F} _.
Arguments holes {F} _.
Arguments values {F} _.

(** [sum(2**n*x for n,x in enumerate(reversed(r)))] *)
Definition column_value (r : list Z) : Z :=
  Zsum (imap (fun n x => 2 ^ Z.of_nat n * x) (reverse r)).

Section Reader.
Context {F : Type} `{PyFloat F}.

(** [scipy.stats.linregress(x, y)], which may raise. *)
Variable linregress : list Z -> list Z -> result (linreg F).

(** [CARD_X = 13 * .25 * DPI] and [FINE_TUNE = .05] *)
Definition CARD_X : F := of_int 13 *~ of_dec 25 (-2) *~ of_int DPI.
Definition FINE_TUNE : F := of_dec 5 (-2).

(** [center_x(y)]: the centre X for a given Y *)
Definition center_x (l r : linreg F) (y : F) : result Z :=
  x1 ← trunc (intercept l +~ y *~ slope l);
  x2 ← trunc (intercept r +~ y *~ slope r);
  trunc (of_int (x1 + x2) *~ of_dec 5 (-1)).

(** [hole_coord(col, row)]: ideal coordinates of a hole *)
Definition hole_coord (l r : linreg F) (yf : Z) (col row : Z) : result (F * F) :=
  let row := of_int row -~ of_dec 65 (-1) in
  let col := col - 1 in
  let dx := row *~ of_dec 25 (-2) *~ of_int DPI in
  let y := of_int yf
           -~ ((of_dec 25 (-2) +~ of_dec 87 (-3) *~ of_int col) *~ of_int DPI)
           -~ dx *~ slope r in
  cx ← center_x l r y;
  let x := of_int cx +~ dx in
  Ok (x, y).

(** [measure_skew]: the edge searches, the two regressions and, when
    debugging, the modelled card edges drawn into the image. *)
Definition measure_skew (debug : bool) (im : image)
  : result (image * linreg F * linreg F) :=
  let st := skew_loop im in
  l ← linregress (ys st) (left st);
  r ← linregress (ys st) (right st);
  if debug then
    im' ← for_each (fun im y =>
             cx ← center_x l r (of_int y);
             for_each (fun im a =>
                 x ← trunc (of_int cx +~ a *~ CARD_X);
                 set_pixel im y x (stipple y))
               [of_dec (-5) (-1); of_dec 5 (-1)] im)
           (range 100 (shape0 im - 200)) im;
    Ok (im', l, r)
  else Ok (im, l, r).

(** The contrast of a candidate front-edge row [y]. *)
Definition front_score (im : image) (l r : linreg F) (y : Z) : result Z :=
  x ← center_x l r (of_int y);
  let light := window_sum im (y - EDGE_WIN) y (x - EDGE_WIN) (x + EDGE_WIN) in
  let dark := window_sum im y (y + EDGE_WIN) (x - EDGE_WIN) (x + EDGE_WIN) in
  Ok (light - dark).

(** [yb = self.ymax; yv = 0;
     for y in range(self.ymax-20, self.ymax-200, -1): ...] *)
Definition search_front (im : image) (l r : linreg F) : result Z :=
  st ← for_each (fun st y =>
           score ← front_score im l r y;
           Ok (keep_peak (fun _ => score) st y))
         (range_down (shape0 im - 20) (shape0 im - 200)) (shape0 im, 0);
  Ok st.1.

(** [find_front_edge], with the line drawn through the front edge when
    debugging. *)
Definition find_front_edge (debug : bool) (im : image) (l r : linreg F)
  : result (image * Z) :=
  yb ← search_front im l r;
  if debug then
    xc ← center_x l r (of_int yb);
    let y := yb in
    im' ← for_each (fun im x =>
             row ← trunc (of_int y -~ of_int (x - xc) *~ slope r);
             set_pixel im row x (stipple x))
           (range (xc - 100) (xc + 100)) im;
    Ok (im', yb)
  else Ok (im, yb).

(** The point at which cell [(col, row)] is probed:
    [x, y = self.hole_coord(col, row); x = int(x + delta_x); ...] *)
Definition probe_point (l r : linreg F) (yf : Z) (st : scan_state F)
    (col row : Z) : result (Z * Z) :=
  xy ← hole_coord l r yf col row;
  x ← trunc (xy.1 +~ delta_x st);
  y ← trunc (xy.2 +~ delta_y st);
  Ok (x, y).

(** The classification of cell [(col, row)] in the state [st]: the
    probe point, then the call of [is_hole] at it. *)
Definition probe_cell (debug : bool) (l r : linreg F) (yf : Z) (st : scan_state F)
    (col row : Z) : result (image * verdict) :=
  xy ← probe_point l r yf st col row;
  is_hole debug (s_im st) xy.1 xy.2.

(** The drift after a call of [is_hole]:
    [if hole: delta_x += dx * FINE_TUNE; delta_y += dy * FINE_TUNE] *)
Definition tune (st : scan_state F) (im' : image) (v : verdict) : scan_state F :=
  if hole v =? 0 then
    {| s_im := im'; delta_x := delta_x st; delta_y := delta_y st |}
  else
    {| s_im := im';
       delta_x := delta_x st +~ of_int (off_dx v) *~ FINE_TUNE;
       delta_y := delta_y st +~ of_int (off_dy v) *~ FINE_TUNE |}.

(** The body of [for row in range(1, 13)]; [r] is the column list. *)
Definition scan_cell (front debug : bool) (l r : linreg F) (yf col : Z)
    (acc : scan_state F * list Z) (row : Z) : result (scan_state F * list Z) :=
  xy ← probe_point l r yf acc.1 col row;
  res ← is_hole debug (s_im acc.1) xy.1 xy.2;
  let col_list := if front then acc.2 ++ [hole res.2] else hole res.2 :: acc.2 in
  Ok (tune acc.1 res.1 res.2, col_list).

(** The body of [for col in range(1, 81)]. The list [r] is appended to
    [self.holes] before it is filled; it is read only after the scan. *)
Definition scan_column (front debug : bool) (l r : linreg F) (yf : Z)
    (acc : scan_state F * list (list Z)) (col : Z)
  : result (scan_state F * list (list Z)) :=
  res ← for_each (scan_cell front debug l r yf col) (range 1 13) (acc.1, []);
  Ok (res.1, acc.2 ++ [res.2]).

Definition scan_init (im : image) : scan_state F :=
  {| s_im := im; delta_x := of_int 0; delta_y := of_int 0 |}.

(** [find_holes(front)]: look for 80x12 holes *)
Definition find_holes (front debug : bool) (im : image) (l r : linreg F) (yf : Z)
  : result (scan_state F * list (list Z)) :=
  for_each (scan_column front debug l r yf) (range 1 81) (scan_init im, []).

(** The classifications of the cells [rows] of column [col] in the
    order in which [find_holes] obtains them from [is_hole], with the
    state after the last of them. *)
Fixpoint detect_rows (debug : bool) (l r : linreg F) (yf col : Z)
    (rows : list Z) (st : scan_state F) : result (scan_state F * list Z) :=
  match rows with
  | [] => Ok (st, [])
  | row :: rows' =>
      xy ← probe_point l r yf st col row;
      res ← is_hole debug (s_im st) xy.1 xy.2;
      rest ← detect_rows debug l r yf col rows' (tune st res.1 res.2);
      Ok (rest.1, hole res.2 :: rest.2)
  end.

(** What one cell does to the state of the scan. *)
Definition scan_step (debug : bool) (l r : linreg F) (yf : Z)
    (st : scan_state F) (cell : Z * Z) : result (scan_state F) :=
  xy ← probe_point l r yf st cell.1 cell.2;
  res ← is_hole debug (s_im st) xy.1 xy.2;
  Ok (tune st res.1 res.2).

(** [PunchedCard.__init__], from the image that [imread] returned. *)
Definition PunchedCard (im : image) (front debug : bool) : result (card F) :=
  sk ← measure_skew debug im;
  fe ← find_front_edge debug sk.1.1 sk.1.2 sk.2;
  fh ← find_holes front debug fe.1 sk.1.2 sk.2 fe.2;
  Ok {| c_im := s_im fh.1; lrl := sk.1.2; lrr := sk.2; y_front := fe.2;
        holes := fh.2; values := column_value <$> fh.2 |}.

(** [ebcdic()]: convert the hole patterns to EBCDIC *)
Definition ebcdic (c : card F) : list Z :=
  (fun i => dict_get HOLLERITH_TO_EBCDIC i 0) <$> values c.

End Reader.

(** ** Exact rational arithmetic as an instance of the float operations *)

Definition Qtrunc (q : Q) : Z := Z.quot (Qnum q) (Zpos (Qden q)).

Definition Qdec (m e : Z) : Q :=
  if e <? 0 then Qmake m (Z.to_pos (10 ^ (- e))) else inject_Z (m * 10 ^ e).

#[global] Instance Q_PyFloat : PyFloat Q := {|
  fadd := fun a b => Qred (Qplus a b);
  fsub := fun a b => Qred (Qminus a b);
  fmul := fun a b => Qred (Qmult a b);
  of_int := inject_Z; of_dec := Qdec; trunc := fun q => Ok (Qtrunc q)
|}.

(** ** Notions used in the statements *)

(** [x] is the first element of [l] at which [score] is largest. *)
Definition first_max {A : Type} (score : A -> Z) (l : list A) (x : A) : Prop :=
  exists pre post, l = pre ++ x :: post
    /\ (forall a, a ∈ pre -> score a < score x)
    /\ (forall a, a ∈ post -> score a <= score x).

(** [x] is the first element of [l] at which [score] is smallest. *)
Definition first_min {A : Type} (score : A -> Z) (l : list A) (x : A) : Prop :=
  exists pre post, l = pre ++ x :: post
    /\ (forall a, a ∈ pre -> score x < score a)
    /\ (forall a, a ∈ post -> score x <= score a).






(** The candidate rows of the front-edge search. *)
Definition front_candidates (im : image) : list Z :=
  range_down (shape0 im - 20) (shape0 im - 200).

(** The centre computation succeeds at every candidate row of the
    front-edge search, and [sc] gives the contrast of each. *)
Definition front_scores {F : Type} `{PyFloat F} (im : image) (l r : linreg F)
    (sc : Z -> Z) : Prop :=
  forall y, y ∈ front_candidates im -> front_score im l r y = Ok (sc y).

(** Two images of the same shape. *)
Definition same_shape (im im' : image) : Prop :=
  shape0 im' = shape0 im /\ shape1 im' = shape1 im /\ shape2 im' = shape2 im.

(** The 960 cells [(col, row)] in the order of the scan. *)
Definition cells : list (Z * Z) :=
  flat_map (fun col => (fun row => (col, row)) <$> range 1 13) (range 1 81).

(** The entry of [self.holes] for column [col] and its position [row],
    both counted from 1. *)
Definition hole_at {F : Type} (c : card F) (col row : Z) : Z :=
  (holes c !!! Z.to_nat (col - 1)) !!! Z.to_nat (row - 1).

(** The least element of a list ([d] for the empty list). *)
Definition list_min (d : Z) (l : list Z) : Z :=
  match l with
  | [] => d
  | a :: l' => foldr Z.min a l'
  end.

(** The minimum, over the 15 candidate offsets, of the window sums at
    the probe point [(x, y)]. *)
Definition min_ww (im : image) (x y : Z) : Z :=
  list_min 0 (ww im x y <$> offsets).





(** An image as [imread] delivers it: up to four channels of 8-bit or
    16-bit samples. *)
Definition scanned_image (im : image) : Prop :=
  0 <= shape0 im /\ 0 <= shape1 im /\ 1 <= channels im <= 4
  /\ forall r c k, 0 <= pix im r c k <= 65535.

(** ** Example images (greyscale, 590 by 1181 pixels, as scanned) *)

(** Every sample has the value [v]. *)
Definition blank (v : Z) : image :=
  {| shape0 := 1181; shape1 := 590; shape2 := None; pix := fun _ _ _ => v |}.


(** A light card on a dark background: the card covers the columns 58 to
    547 of the rows 0 to 1149, so its left edge is at x = 58, its right
    edge at x = 548 and its front edge at y = 1150. *)
Definition on_card (r c : Z) : bool :=
  (58 <=? c) && (c <? 548) && (r <? 1150).

Definition card_scan : image :=
  {| shape0 := 1181; shape1 := 590; shape2 := None;
     pix := fun r c _ => if on_card r c then 255 else 0 |}.

(** The same card with one hole, punched at column 80, row 12: the dark
    rectangle of the rows 74 to 88 and the columns 500 to 518. *)
Definition in_hole (r c : Z) : bool :=
  (74 <=? r) && (r <? 89) && (500 <=? c) && (c <? 519).

Definition punched_card_scan : image :=
  {| shape0 := 1181; shape1 := 590; shape2 := None;
     pix := fun r c _ => if on_card r c && negb (in_hole r c) then 255 else 0 |}.

(** Samples are 200 in the columns before [x0] and 255 from [x0] on. *)
Definition dim_until (x0 : Z) : image :=
  {| shape0 := 1181; shape1 := 590; shape2 := None;
     pix := fun _ c _ => if c <? x0 then 200 else 255 |}.

(** Every sample has the value [v], except the one at row [r0], column
    [c0], which has the value [v0]. *)
Definition blank_but (v r0 c0 v0 : Z) : image :=
  {| shape0 := 1181; shape1 := 590; shape2 := None;
     pix := fun r c _ => if (r =? r0) && (c =? c0) then v0 else v |}.

(** What [linregress] returns when every edge position is the same:
    slope 0, and that position as the intercept. *)
Definition const_fit : list Z -> list Z -> result (linreg Q) :=
  fun _ xs => Ok (LinReg 0%Q (inject_Z (hd 0 xs))).

(** ** Proof automation *)

(** A closed decidable statement is settled by evaluation. *)
Ltac by_evaluation :=
  apply (bool_decide_unpack _); vm_compute; exact I.


(** Evaluates the closed powers of two and list lookups of the goal. *)
Ltac eval_closed :=
  repeat match goal with
  | |- context [2 ^ ?e] =>
      let v := eval vm_compute in (2 ^ e) in progress change (2 ^ e) with v
  | |- context [@lookup_total ?K ?A ?M ?I ?i ?l] =>
      let v := eval cbv in (@lookup_total K A M I i l) in
      progress change (@lookup_total K A M I i l) with v
  end.


(** ** [utf8], [dump] and [main] *)

(** [l[i]] on a Python list. *)
Definition list_index {A : Type} (l : list A) (i : Z) : result A :=
  j ← index (Z.of_nat (length l)) i;
  match l !! Z.to_nat j with
  | Some a => Ok a
  | None => Raise IndexError
  end.

(** What a generator, or code that prints, leaves behind: the items
    yielded or the lines printed, and how it ended. *)
Record run : Type := Run {
  lines : list string;
  ending : result unit
}.

(** The exception [e] before anything is yielded or printed. *)
Definition raise_run (e : exn) : run := {| lines := []; ending := Raise e |}.

(** A step that may raise, followed by the rest. *)
Definition try_run {A : Type} (m : result A) (k : A -> run) : run :=
  match m with
  | Ok a => k a
  | Raise e => raise_run e
  end.

(** [first], then [rest] unless [first] raised. *)
Definition run_then (first rest : run) : run :=
  match ending first with
  | Ok _ => {| lines := lines first ++ lines rest; ending := ending rest |}
  | Raise _ => first
  end.

(** [for a in l: body(a)] for a body that prints. *)
Fixpoint run_each {A : Type} (body : A -> run) (l : list A) : run :=
  match l with
  | [] => {| lines := []; ending := Ok () |}
  | a :: l' => run_then (body a) (run_each body l')
  end.

(** [s.ljust(width)] *)
Definition ljust (width : nat) (s : string) : string :=
  (s ++ string_of_list_ascii (replicate (width - String.length s) " "%char))%string.

(** The line that [print(a, b, ...)] writes. *)
Definition print_args (args : list string) : string := String.concat " " args.

Section Views.
Context {F : Type} `{PyFloat F}.

(** [scipy.stats.linregress], [imageio.v3.imread], which raises when
    the file cannot be read, and [bytes.decode(code_page)], a character
    of the text being one [ascii]. *)
Variable linregress : list Z -> list Z -> result (linreg F).
Variable imread : string -> result image.
Variable decode : list Z -> string.

(** [utf8()]: convert EBCDIC to text *)
Definition utf8 (c : card F) : string := decode (ebcdic c).

(** One line of [dump()]: the inner loop over [col] and the [join]. *)
Definition dump_row (c : card F) (row : Z) : result string :=
  chars ← for_each (fun (i : list ascii) col =>
             column ← list_index (holes c) (col - 1);
             h ← list_index column (row - 1);
             Ok (i ++ [if h =? 0 then "-"%char else "#"%char]))
           (range 1 81) [];
  Ok (string_of_list_ascii chars).

(** The lines yielded by [for row in range(1, 13)]. *)
Fixpoint dump_rows (c : card F) (rows : list Z) : run :=
  match rows with
  | [] => {| lines := []; ending := Ok () |}
  | row :: rows' =>
      try_run (dump_row c row) (fun s =>
        let rest := dump_rows c rows' in
        {| lines := s :: lines rest; ending := ending rest |})
  end.

(** [dump()]: the text, then the 12 rows of the hole grid. *)
Definition dump (c : card F) : run :=
  let rest := dump_rows c (range 1 13) in
  {| lines := utf8 c :: lines rest; ending := ending rest |}.

(** [for i in g: print(prefix + i)] *)
Definition print_each (prefix : string) (g : run) : run :=
  {| lines := (fun i => (prefix ++ i)%string) <$> lines g; ending := ending g |}.

(** The comparison of the two readings of a pair, and what is printed. *)
Definition report (f b : card F) (fn_f fn_b : string) : run :=
  if decide (values f = values b) then
    {| lines := [print_args ["good"; ljust 80 (utf8 f); fn_f; fn_b]]%string;
       ending := Ok () |}
  else
    run_then
      {| lines := [print_args ["bad "; ljust 80 (utf8 f); fn_f; fn_b]]%string;
         ending := Ok () |}
      (run_then (print_each "# fs " (dump f)) (print_each "# bs " (dump b))).

(** [PunchedCard(fn, front=front)], which reads the image first and
    has no debug image. *)
Definition read_card (fn : string) (front : bool) : result (card F) :=
  im ← imread fn;
  PunchedCard linregress im front false.

(** The body of [for i in range(0, len(argv), 2)]. *)
Definition main_pair (argv : list string) (i : Z) : run :=
  try_run (list_index argv i) (fun fn_f =>
  try_run (read_card fn_f true) (fun f =>
  try_run (list_index argv (i + 1)) (fun fn_b =>
  try_run (read_card fn_b false) (fun b =>
  report f b fn_f fn_b)))).

(** [main(argv)]: [argv.pop(0)], then the pairs of front and back images. *)
Definition main (argv : list string) : run :=
  match argv with
  | [] => raise_run IndexError
  | _ :: argv' =>
      run_each (main_pair argv') (range_step 0 (Z.of_nat (length argv')) 2)
  end.

End Views.

(** ** Notions used in further statements *)

(** The outline of a hole found at [(x, y)] with the offset [off] lies
    within the index range of both axes. *)
Definition outline_in_range (im : image) (x y : Z) (off : Z * Z) : Prop :=
  - shape0 im <= y + off.1 - HOLE_Y /\ y + off.1 + HOLE_Y < shape0 im
  /\ - shape1 im <= x + off.2 - HOLE_X /\ x + off.2 + HOLE_X < shape1 im.

(** An entry of the hole grid is 0 or 1. *)
Definition is_bit (h : Z) : Prop := h = 0 \/ h = 1.

(** The 12-bit value with the bits of [v] in reverse order. *)
Definition bit_reverse12 (v : Z) : Z :=
  Zsum ((fun i => Z.b2z (Z.testbit v i) * 2 ^ (11 - i)) <$> range 0 12).

(** The line of the dump for [row]: one character per column, ["#"]
    where the grid has a hole. *)
Definition grid_line {F : Type} (c : card F) (row : Z) : string :=
  string_of_list_ascii
    ((fun col => if hole_at c col row =? 0 then "-"%char else "#"%char)
       <$> range 1 81).

(** A decoder for the examples: a byte becomes the character of the same
    code. *)
Definition latin1 (bs : list Z) : string :=
  string_of_list_ascii ((fun b => ascii_of_nat (Z.to_nat b)) <$> bs).

(** The readings of the two example scans with no debug image. *)
Definition card_scan_read : result (card Q) :=
  Eval vm_compute in PunchedCard const_fit card_scan true false.

Definition punched_card_scan_read : result (card Q) :=
  Eval vm_compute in PunchedCard const_fit punched_card_scan true false.
(** * Properties *)

(** ** Selection loops *)

Section Peak.
Context {A : Type} (score : A -> Z).

Lemma find_peak_cons a l st :
  find_peak score (a :: l) st = find_peak score l (keep_peak score st a).
Proof. reflexivity. Qed.

(** No candidate beats the initial score: the initial pair comes back. *)
Lemma find_peak_none l b p :
  (forall x, x ∈ l -> score x <= p) -> find_peak score l (b, p) = (b, p).
Proof.
  induction l as [|a l IH]; intros Hall; [reflexivity|].
  rewrite find_peak_cons. unfold keep_peak; simpl.
  destruct (Z.ltb_spec p (score a)) as [Hlt|Hge].
  - specialize (Hall a (list_elem_of_here _ _)). lia.
  - apply IH. intros x Hx. apply Hall. by apply list_elem_of_further.
Qed.

(** Some candidate beats the initial score: the first maximiser wins. *)
Lemma find_peak_some l b p :
  (exists x, x ∈ l /\ p < score x) ->
  let r := find_peak score l (b, p) in
  first_max score l r.1 /\ r.2 = score r.1 /\ p < r.2.
Proof.
  revert b p. induction l as [|a l IH]; intros b p [x [Hx Hp]].
  { by apply elem_of_nil in Hx. }
  cbn zeta. rewrite find_peak_cons. unfold keep_peak; simpl.
  destruct (Z.ltb_spec p (score a)) as [Hlt|Hge].
  - destruct (decide (Exists (fun x => score a < score x) l)) as [He|Hne].
    + apply Exists_exists in He.
      destruct (IH a (score a) He) as [(pre & post & Heq & Hpre & Hpost) [Hs Hgt]].
      split; [|split; [exact Hs | lia]].
      exists (a :: pre), post. split; [simpl; f_equal; exact Heq|].
      split; [|exact Hpost].
      intros c Hc. apply elem_of_cons in Hc as [->|Hc]; [lia | by apply Hpre].
    + assert (Hall : forall x, x ∈ l -> score x <= score a).
      { intros c Hc. destruct (Z.le_gt_cases (score c) (score a)) as [|Hgt]; [done|].
        exfalso. apply Hne, Exists_exists. eauto. }
      rewrite (find_peak_none l a (score a) Hall). simpl.
      split; [|split; [reflexivity | lia]].
      exists [], l. split; [reflexivity|]. split; [|exact Hall].
      intros c Hc. by apply elem_of_nil in Hc.
  - apply elem_of_cons in Hx as [->|Hx]; [lia|].
    destruct (IH b p (ex_intro _ x (conj Hx Hp)))
      as [(pre & post & Heq & Hpre & Hpost) [Hs Hgt]].
    split; [|split; [exact Hs | exact Hgt]].
    exists (a :: pre), post. split; [simpl; f_equal; exact Heq|].
    split; [|exact Hpost].
    intros c Hc. apply elem_of_cons in Hc as [->|Hc]; [lia | by apply Hpre].
Qed.
End Peak.

(** The minimising loop of [is_hole] is the maximising loop on the
    negated sums. *)
Lemma keep_least_as_peak (score : Z * Z -> Z) l w o :
  fold_left (keep_least score) l (w, o) =
  let r := find_peak (fun a => - score a) l (o, - w) in (- r.2, r.1).
Proof.
  revert w o. induction l as [|a l IH]; intros w o.
  { simpl. f_equal. lia. }
  rewrite find_peak_cons. simpl fold_left. unfold keep_least, keep_peak; simpl.
  destruct (Z.ltb_spec (score a) w) as [Hlt|Hge];
    destruct (Z.ltb_spec (- w) (- score a)) as [Hlt'|Hge']; try lia;
    apply IH.
Qed.

Lemma least_none (score : Z * Z -> Z) l w o :
  (forall a, a ∈ l -> w <= score a) ->
  fold_left (keep_least score) l (w, o) = (w, o).
Proof.
  intros Hall. rewrite keep_least_as_peak.
  rewrite find_peak_none; [simpl; f_equal; lia|].
  intros a Ha. specialize (Hall a Ha). lia.
Qed.

Lemma least_some (score : Z * Z -> Z) l w o :
  (exists a, a ∈ l /\ score a < w) ->
  let r := fold_left (keep_least score) l (w, o) in
  first_min score l r.2 /\ r.1 = score r.2 /\ r.1 < w.
Proof.
  intros [a [Ha Hlt]]. cbn zeta. rewrite keep_least_as_peak. cbn zeta.
  destruct (find_peak_some (fun a => - score a) l o (- w))
    as [(pre & post & Heq & Hpre & Hpost) [Hs Hgt]].
  { exists a. split; [done | lia]. }
  simpl. split; [|split; [lia | lia]].
  exists pre, post. split; [exact Heq|].
  split; intros c Hc; [specialize (Hpre c Hc) | specialize (Hpost c Hc)]; lia.
Qed.

(** ** Edge searches *)





Lemma first_max_elem {A : Type} (score : A -> Z) l x :
  first_max score l x -> x ∈ l.
Proof.
  intros (pre & post & -> & _). apply elem_of_app. right. apply list_elem_of_here.
Qed.

Lemma first_min_elem {A : Type} (score : A -> Z) l x :
  first_min score l x -> x ∈ l.
Proof.
  intros (pre & post & -> & _). apply elem_of_app. right. apply list_elem_of_here.
Qed.

(** ** The low-pass step of the search centres *)

Lemma lowpass_self c : lowpass c c = c.
Proof.
  unfold lowpass. replace (8 * c + (c - c)) with (c * 8) by lia.
  apply Z.quot_mul. lia.
Qed.

(** The step moves the centre strictly toward a found x that is at least
    8 pixels away, without reaching it. *)
Lemma lowpass_moves_toward c x :
  8 <= Z.abs (x - c) ->
  (c < x -> c < lowpass c x < x) /\ (x < c -> x < lowpass c x < c).
Proof.
  intros Hfar. unfold lowpass.
  pose proof (Z.quot_rem' (8 * c + (x - c)) 8) as Hqr.
  pose proof (Z.rem_bound_abs (8 * c + (x - c)) 8 ltac:(lia)) as Hr.
  split; intros Hlt; lia.
Qed.

Lemma skew_step_cr im st y : cr (skew_step im st y) = cr st.
Proof. unfold skew_step; simpl. apply lowpass_self. Qed.

Lemma skew_step_cl im st y :
  cl (skew_step im st y) = lowpass (cl st) (search_left im y (cl st)).
Proof. reflexivity. Qed.

(** Over the whole of [measure_skew] the right search centre stays where
    it started. *)
Lemma skew_loop_cr im : cr (skew_loop im) = shape1 im + EXPECT_RIGHT_EDGE.
Proof.
  unfold skew_loop.
  assert (Hgen : forall rows st, cr (fold_left (skew_step im) rows st) = cr st).
  { induction rows as [|y rows IH]; intros st; [reflexivity|].
    simpl. rewrite IH. apply skew_step_cr. }
  by rewrite Hgen.
Qed.

(** C5: on the first sampled row of [card_scan] the right edge is found
    at x = 548 while the right search centre is 540, and the left edge at
    x = 58 while the left search centre is 50. The left centre carried to
    the next row has moved toward the x found (to 51); the right centre
    is 540 as before. *)
Theorem right_centre_not_updated :
  cl (skew_init card_scan) = 50
  /\ search_left card_scan 100 50 = 58
  /\ cl (skew_step card_scan (skew_init card_scan) 100) = 51
  /\ cr (skew_init card_scan) = 540
  /\ search_right card_scan 100 540 = 548
  /\ cr (skew_step card_scan (skew_init card_scan) 100) = 540.
Proof. repeat split; by vm_compute. Qed.

(** ** Window sums *)


Lemma length_range a b : length (range a b) = Z.to_nat (b - a).
Proof. unfold range. apply length_seqZ. Qed.

Lemma length_slice_le n lo hi :
  0 <= n -> lo <= hi -> Z.of_nat (length (slice n lo hi)) <= hi - lo.
Proof.
  intros Hn Hle. unfold slice. rewrite length_range. unfold slice_bound.
  destruct (Z.ltb_spec lo 0); destruct (Z.ltb_spec hi 0); lia.
Qed.

Lemma Zsum_le_bound {A : Type} (f : A -> Z) (l : list A) (B : Z) :
  (forall a, a ∈ l -> f a <= B) -> Zsum (f <$> l) <= B * Z.of_nat (length l).
Proof.
  induction l as [|a l IH]; intros Hall; [simpl; lia|].
  pose proof (Hall a (list_elem_of_here _ _)) as Ha.
  assert (Zsum (f <$> l) <= B * Z.of_nat (length l)).
  { apply IH. intros b Hb. apply Hall. by apply list_elem_of_further. }
  rewrite fmap_cons. change (length (a :: l)) with (S (length l)).
  rewrite Nat2Z.inj_succ.
  change (Zsum (f a :: (f <$> l))) with (f a + Zsum (f <$> l)). lia.
Qed.

Lemma pixel_sum_le im r c :
  scanned_image im -> pixel_sum im r c <= 65535 * channels im.
Proof.
  intros (_ & _ & Hc & Hpix). unfold pixel_sum.
  etrans; [apply (Zsum_le_bound _ _ 65535); intros k _; apply Hpix|].
  rewrite length_range. lia.
Qed.

Lemma row_sum_le im y lo hi :
  scanned_image im -> lo <= hi ->
  row_sum im y lo hi <= 65535 * channels im * (hi - lo).
Proof.
  intros Him Hle. unfold row_sum.
  etrans; [apply (Zsum_le_bound _ _ (65535 * channels im)); intros c _;
           by apply pixel_sum_le|].
  destruct Him as (_ & H1 & Hc & _).
  pose proof (length_slice_le (shape1 im) lo hi H1 Hle) as Hlen.
  apply Z.mul_le_mono_nonneg_l; lia.
Qed.

Lemma window_sum_le im rlo rhi clo chi :
  scanned_image im -> rlo <= rhi -> clo <= chi ->
  window_sum im rlo rhi clo chi <= 65535 * channels im * (chi - clo) * (rhi - rlo).
Proof.
  intros Him Hr Hc. unfold window_sum.
  etrans; [apply (Zsum_le_bound _ _ (65535 * channels im * (chi - clo)));
           intros r _; by apply row_sum_le|].
  destruct Him as (H0 & _ & Hch & _).
  pose proof (length_slice_le (shape0 im) rlo rhi H0 Hr) as Hlen.
  apply Z.mul_le_mono_nonneg_l; [|lia].
  apply Z.mul_nonneg_nonneg; lia.
Qed.

(** On a scanned image every window sum is far below the sentinel. *)
Lemma ww_below_sentinel im x y o :
  scanned_image im -> ww im x y o < W_INIT.
Proof.
  intros Him. unfold ww.
  eapply Z.le_lt_trans;
    [apply window_sum_le; [done | unfold HOLE_Y; lia | unfold HOLE_X; lia]|].
  destruct Him as (_ & _ & Hch & _). unfold HOLE_X, HOLE_Y, W_INIT. lia.
Qed.


Lemma offsets_bounds o :
  o ∈ offsets -> -1 <= o.1 <= 1 /\ -2 <= o.2 <= 2.
Proof.
  revert o. apply Forall_forall. by_evaluation.
Qed.

(** ** Loops that may raise *)

Lemma bind_Ok {A B : Type} (a : A) (k : A -> result B) : (Ok a ≫= k) = k a.
Proof. reflexivity. Qed.

Lemma bind_Ok_inv {A B : Type} (m : result A) (k : A -> result B) (b : B) :
  (m ≫= k) = Ok b -> exists a, m = Ok a /\ k a = Ok b.
Proof. destruct m as [a|]; [|discriminate]. intros Hk. by exists a. Qed.

Lemma for_each_app {A S : Type} (body : S -> A -> result S) l1 l2 st :
  for_each body (l1 ++ l2) st = (for_each body l1 st ≫= for_each body l2).
Proof.
  revert st. induction l1 as [|a l1 IH]; intros st; [reflexivity|].
  simpl. destruct (body st a) as [st'|]; [|reflexivity].
  rewrite !bind_Ok. apply IH.
Qed.

Lemma for_each_nil {A S : Type} (body : S -> A -> result S) st :
  for_each body [] st = Ok st.
Proof. reflexivity. Qed.

Lemma for_each_cons {A S : Type} (body : S -> A -> result S) a l st :
  for_each body (a :: l) st = (body st a ≫= for_each body l).
Proof. reflexivity. Qed.

(** A loop whose body keeps an invariant, and returns whenever the
    invariant holds, returns. *)
Lemma for_each_returns {A S : Type} (P : S -> Prop) (body : S -> A -> result S) l st :
  P st ->
  (forall s a, a ∈ l -> P s -> exists s', body s a = Ok s' /\ P s') ->
  exists st', for_each body l st = Ok st' /\ P st'.
Proof.
  revert st. induction l as [|a l IH]; intros st Hst Hbody.
  { by exists st. }
  destruct (Hbody st a (list_elem_of_here _ _) Hst) as (s' & Hs' & HP).
  simpl. rewrite Hs', bind_Ok. apply IH; [done|].
  intros s b Hb. apply Hbody. by apply list_elem_of_further.
Qed.

(** Every pass through the body of a completed loop has returned. *)
Lemma for_each_elem {A S : Type} (P : S -> Prop) (body : S -> A -> result S) l st st' :
  for_each body l st = Ok st' -> P st ->
  (forall s a s', P s -> body s a = Ok s' -> P s') ->
  forall a, a ∈ l -> exists s s', P s /\ body s a = Ok s'.
Proof.
  revert st. induction l as [|b l IH]; intros st Hrun Hst Hbody a Ha.
  { by apply elem_of_nil in Ha. }
  rewrite for_each_cons in Hrun. apply bind_Ok_inv in Hrun as (s1 & Hb & Hrun).
  apply elem_of_cons in Ha as [-> | Ha]; [by exists st, s1|].
  apply (IH s1 Hrun); [by apply (Hbody st b) | done | done].
Qed.

(** A loop raises what a pass through its body raised. *)
Lemma for_each_exn {A S : Type} (Q : exn -> Prop) (body : S -> A -> result S) l st e :
  (forall s a e', a ∈ l -> body s a = Raise e' -> Q e') ->
  for_each body l st = Raise e -> Q e.
Proof.
  revert st. induction l as [|a l IH]; intros st Hbody Hrun; [discriminate|].
  rewrite for_each_cons in Hrun. destruct (body st a) as [s|e'] eqn:Hb.
  - rewrite bind_Ok in Hrun. apply (IH s); [|done].
    intros s0 b e0 Hin. apply Hbody. by apply list_elem_of_further.
  - injection Hrun as <-. apply (Hbody st a e' (list_elem_of_here _ _) Hb).
Qed.

(** What the body preserves holds when the loop returns. *)
Lemma for_each_preserves {A S : Type} (P : S -> Prop) (body : S -> A -> result S) l st st' :
  P st ->
  (forall s a s', a ∈ l -> P s -> body s a = Ok s' -> P s') ->
  for_each body l st = Ok st' -> P st'.
Proof.
  revert st. induction l as [|a l IH]; intros st Hst Hbody Hrun.
  { simpl in Hrun. by injection Hrun as <-. }
  simpl in Hrun. apply bind_Ok_inv in Hrun as (s & Hs & Hrun).
  apply (IH s); [|intros ? b ? Hb; apply Hbody; by apply list_elem_of_further|done].
  by apply (Hbody st a s (list_elem_of_here _ _)).
Qed.

Lemma elem_of_range a lo hi : a ∈ range lo hi <-> lo <= a < hi.
Proof. unfold range. rewrite elem_of_seqZ. lia. Qed.

Lemma elem_of_range_step y a b s :
  0 < s -> y ∈ range_step a b s <-> a <= y < b /\ (y - a) mod s = 0.
Proof.
  intros Hs. unfold range_step. rewrite list_elem_of_fmap. split.
  - intros (i & -> & Hi). apply elem_of_seqZ in Hi.
    assert (s * (i + 1) <= b - a + s - 1).
    { etrans; [|apply (Z.mul_div_le _ s); lia].
      apply Z.mul_le_mono_nonneg_l; lia. }
    rewrite Z.mul_add_distr_l, Z.mul_1_r in H.
    assert (0 <= s * i) by (apply Z.mul_nonneg_nonneg; lia).
    split; [lia|]. replace (a + s * i - a) with (i * s) by lia.
    apply Z.mod_mul. lia.
  - intros [Hy Hmod]. exists ((y - a) / s).
    pose proof (Z.div_mod (y - a) s ltac:(lia)) as Hdm. rewrite Hmod in Hdm.
    split; [lia|]. apply elem_of_seqZ. split; [apply Z.div_pos; lia|].
    rewrite Z.add_0_l. apply Z.div_lt_upper_bound; [lia|].
    pose proof (Z.div_mod (b - a + s - 1) s ltac:(lia)) as Hdn.
    pose proof (Z.mod_pos_bound (b - a + s - 1) s Hs). lia.
Qed.

(** ** Writes *)

Lemma index_ok n i : - n <= i < n -> exists j, index n i = Ok j.
Proof.
  intros Hi. unfold index.
  destruct (Z.leb_spec 0 i); destruct (Z.ltb_spec i n); simpl; eauto; try lia.
  destruct (Z.leb_spec (- n) i); destruct (Z.ltb_spec i 0); simpl; eauto; lia.
Qed.

Lemma index_Ok_inv n i j : index n i = Ok j -> - n <= i < n.
Proof.
  unfold index.
  destruct (Z.leb_spec 0 i); destruct (Z.ltb_spec i n); simpl; try lia;
    destruct (Z.leb_spec (- n) i); destruct (Z.ltb_spec i 0); simpl;
    try lia; discriminate.
Qed.

(** An index raises nothing but [IndexError]. *)
Lemma index_exn n i e : index n i = Raise e -> e = IndexError.
Proof.
  unfold index. destruct ((0 <=? i) && (i <? n)); [discriminate|].
  destruct ((- n <=? i) && (i <? 0)); [discriminate|]. by intros [= <-].
Qed.

Lemma set_pixel_ok im r c v :
  - shape0 im <= r < shape0 im -> - shape1 im <= c < shape1 im ->
  exists im', set_pixel im r c v = Ok im' /\ same_shape im im'.
Proof.
  intros Hr Hc. unfold set_pixel.
  destruct (index_ok _ _ Hr) as (r' & ->). destruct (index_ok _ _ Hc) as (c' & ->).
  rewrite !bind_Ok. eexists. split; [reflexivity|]. by repeat split.
Qed.

(** A write stores the value written or leaves the sample as it was. *)
Lemma set_pixel_sample im r c v im' :
  set_pixel im r c v = Ok im' ->
  forall i j k, pix im' i j k = v \/ pix im' i j k = pix im i j k.
Proof.
  unfold set_pixel. intros Hset i j k.
  apply bind_Ok_inv in Hset as (r' & _ & Hset).
  apply bind_Ok_inv in Hset as (c' & _ & Hset).
  injection Hset as <-. simpl. destruct ((i =? r') && (j =? c')); auto.
Qed.

Lemma same_shape_trans im1 im2 im3 :
  same_shape im1 im2 -> same_shape im2 im3 -> same_shape im1 im3.
Proof.
  intros (A0 & A1 & A2) (B0 & B1 & B2). repeat split; congruence.
Qed.

Lemma set_pixel_Ok_inv im r c v im' :
  set_pixel im r c v = Ok im' ->
  - shape0 im <= r < shape0 im /\ - shape1 im <= c < shape1 im /\ same_shape im im'.
Proof.
  unfold set_pixel. intros Hset.
  apply bind_Ok_inv in Hset as (r' & Hr & Hset).
  apply bind_Ok_inv in Hset as (c' & Hc & Hset).
  injection Hset as <-. apply index_Ok_inv in Hr, Hc.
  repeat split; try lia; reflexivity.
Qed.

(** A write raises nothing but [IndexError]. *)
Lemma set_pixel_exn im r c v e : set_pixel im r c v = Raise e -> e = IndexError.
Proof.
  unfold set_pixel. intros Hset.
  destruct (index (shape0 im) r) as [r'|e1] eqn:Hr.
  - rewrite bind_Ok in Hset. destruct (index (shape1 im) c) as [c'|e2] eqn:Hc.
    + discriminate.
    + injection Hset as <-. by apply index_exn in Hc.
  - injection Hset as <-. by apply index_exn in Hr.
Qed.

(** Four writes in a row, as in the bodies of the two outline loops. *)
Lemma four_writes_ok im r1 c1 r2 c2 r3 c3 r4 c4 v :
  - shape0 im <= r1 < shape0 im -> - shape1 im <= c1 < shape1 im ->
  - shape0 im <= r2 < shape0 im -> - shape1 im <= c2 < shape1 im ->
  - shape0 im <= r3 < shape0 im -> - shape1 im <= c3 < shape1 im ->
  - shape0 im <= r4 < shape0 im -> - shape1 im <= c4 < shape1 im ->
  exists im',
    (set_pixel im r1 c1 v ≫= fun im1 =>
     set_pixel im1 r2 c2 v ≫= fun im2 =>
     set_pixel im2 r3 c3 v ≫= fun im3 =>
     set_pixel im3 r4 c4 v) = Ok im'
    /\ same_shape im im'.
Proof.
  intros Hr1 Hc1 Hr2 Hc2 Hr3 Hc3 Hr4 Hc4.
  destruct (set_pixel_ok im r1 c1 v Hr1 Hc1) as (im1 & -> & S1).
  rewrite bind_Ok. pose proof S1 as (E0 & E1 & _).
  destruct (set_pixel_ok im1 r2 c2 v) as (im2 & -> & S2); [lia | lia |].
  rewrite bind_Ok. pose proof (same_shape_trans _ _ _ S1 S2) as S12.
  pose proof S12 as (F0 & F1 & _).
  destruct (set_pixel_ok im2 r3 c3 v) as (im3 & -> & S3); [lia | lia |].
  rewrite bind_Ok. pose proof (same_shape_trans _ _ _ S12 S3) as S13.
  pose proof S13 as (G0 & G1 & _).
  destruct (set_pixel_ok im3 r4 c4 v) as (im4 & -> & S4); [lia | lia |].
  exists im4. split; [reflexivity|]. by apply (same_shape_trans _ im3).
Qed.

(** The outline is drawn without an exception when it lies within the
    index range of both axes. *)
Lemma draw_outline_ok im x y o :
  - shape0 im <= y + o.1 - HOLE_Y -> y + o.1 + HOLE_Y < shape0 im ->
  - shape1 im <= x + o.2 - HOLE_X -> x + o.2 + HOLE_X < shape1 im ->
  exists im', draw_outline im x y o = Ok im' /\ same_shape im im'.
Proof.
  intros Hy0 Hy1 Hx0 Hx1. unfold draw_outline. cbn zeta.
  unfold HOLE_X, HOLE_Y in *.
  destruct (for_each_returns (same_shape im)
    (fun im0 dx =>
       set_pixel im0 (y + o.1 + 3) (x + o.2 + dx) 255 ≫= fun im1 =>
       set_pixel im1 (y + o.1 + 3) (x + o.2 - dx) 255 ≫= fun im2 =>
       set_pixel im2 (y + o.1 - 3) (x + o.2 + dx) 255 ≫= fun im3 =>
       set_pixel im3 (y + o.1 - 3) (x + o.2 - dx) 255)
    (range 0 (6 + 1)) im) as (im1 & Hrun1 & Hsh1).
  { by repeat split. }
  { intros s dx Hdx Hs. pose proof Hs as (Hs0 & Hs1 & _).
    apply elem_of_range in Hdx.
    destruct (four_writes_ok s (y + o.1 + 3) (x + o.2 + dx) (y + o.1 + 3) (x + o.2 - dx)
                (y + o.1 - 3) (x + o.2 + dx) (y + o.1 - 3) (x + o.2 - dx) 255)
      as (s' & Hw & Hs'); try lia.
    exists s'. split; [exact Hw | by apply (same_shape_trans _ s)]. }
  rewrite Hrun1, bind_Ok. destruct Hsh1 as (Hs0 & Hs1 & Hs2).
  destruct (for_each_returns (same_shape im)
    (fun im0 dy =>
       set_pixel im0 (y + o.1 + dy) (x + o.2 - 6) 255 ≫= fun im1 =>
       set_pixel im1 (y + o.1 - dy) (x + o.2 - 6) 255 ≫= fun im2 =>
       set_pixel im2 (y + o.1 + dy) (x + o.2 + 6) 255 ≫= fun im3 =>
       set_pixel im3 (y + o.1 - dy) (x + o.2 + 6) 255)
    (range 0 (3 + 1)) im1) as (im2 & Hrun2 & Hsh2).
  { by repeat split. }
  { intros s dy Hdy Hs. pose proof Hs as (Ht0 & Ht1 & _).
    apply elem_of_range in Hdy.
    destruct (four_writes_ok s (y + o.1 + dy) (x + o.2 - 6) (y + o.1 - dy) (x + o.2 - 6)
                (y + o.1 + dy) (x + o.2 + 6) (y + o.1 - dy) (x + o.2 + 6) 255)
      as (s' & Hw & Hs'); try lia.
    exists s'. split; [exact Hw | by apply (same_shape_trans _ s)]. }
  exists im2. split; [exact Hrun2 | exact Hsh2].
Qed.

(** ** The windows of the edge searches *)









(** Near the border the search can prefer a candidate at which the
    image has no edge: with samples of 200 before column 27 and of 255
    from there on, the only edge of row 100 is at column 27, where the
    score is 550; the search around the centre 18 returns 8, where the
    slice on the outside is empty and the score is the 2000 of the
    window on the inside. *)
Example border_candidate_selected :
  search_left (dim_until 27) 100 18 = 8
  /\ row_sum (dim_until 27) 100 (8 - EDGE_WIN) 8 = 0
  /\ left_score (dim_until 27) 100 8 = 2000
  /\ left_score (dim_until 27) 100 27 = 550
  /\ (forall c, c < 27 -> pixel_sum (dim_until 27) 100 c = 200)
  /\ (forall c, 27 <= c -> pixel_sum (dim_until 27) 100 c = 255).
Proof.
  repeat (split; [by vm_compute|]).
  split; intros c Hc; unfold pixel_sum; cbn; vm_compute range;
    cbn [fmap list_fmap Zsum foldr]; destruct (Z.ltb_spec c 27); lia.
Qed.

(** ** What the edge model returns and raises *)


Section EdgeModel.
Context {F : Type} `{PyFloat F}.
Variable linregress : list Z -> list Z -> result (linreg F).

(** Without debugging, [measure_skew] is the two regressions, and
    leaves the image as it was. *)
Lemma measure_skew_quiet im :
  measure_skew linregress false im =
  (linregress (ys (skew_loop im)) (left (skew_loop im)) ≫= fun l =>
   linregress (ys (skew_loop im)) (right (skew_loop im)) ≫= fun r =>
   Ok (im, l, r)).
Proof. reflexivity. Qed.

Lemma measure_skew_quiet_inv im im' l r :
  measure_skew linregress false im = Ok (im', l, r) -> im' = im.
Proof.
  rewrite measure_skew_quiet. intros Hrun.
  apply bind_Ok_inv in Hrun as (l0 & _ & Hrun).
  apply bind_Ok_inv in Hrun as (r0 & _ & Hrun). by injection Hrun as <- _ _.
Qed.

(** Without debugging, [find_front_edge] is the search, and leaves the
    image as it was. *)
Lemma find_front_edge_quiet im l r :
  find_front_edge false im l r = (search_front im l r ≫= fun yb => Ok (im, yb)).
Proof. reflexivity. Qed.

Lemma find_front_edge_quiet_inv im l r im' yf :
  find_front_edge false im l r = Ok (im', yf) ->
  im' = im /\ search_front im l r = Ok yf.
Proof.
  rewrite find_front_edge_quiet. intros Hrun.
  apply bind_Ok_inv in Hrun as (yb & Hyb & Hrun). injection Hrun as <- <-.
  by split.
Qed.

(** When the centre computation succeeds at every candidate row, the
    search is the maximising loop over the contrasts. *)
Lemma search_front_loop im (l r : linreg F) sc cands st :
  (forall y, y ∈ cands -> front_score im l r y = Ok (sc y)) ->
  for_each (fun st y =>
      front_score im l r y ≫= fun score => Ok (keep_peak (fun _ => score) st y))
    cands st
  = Ok (find_peak sc cands st).
Proof.
  revert st. induction cands as [|y cands IH]; intros st Hsc; [reflexivity|].
  rewrite for_each_cons, (Hsc y (list_elem_of_here _ _)), !bind_Ok.
  rewrite IH; [reflexivity|].
  intros y' Hy'. apply Hsc. by apply list_elem_of_further.
Qed.

Lemma search_front_scores im (l r : linreg F) sc :
  front_scores im l r sc ->
  search_front im l r = Ok (find_peak sc (front_candidates im) (shape0 im, 0)).1.
Proof.
  intros Hsc. unfold search_front.
  by rewrite (search_front_loop im l r sc _ _ Hsc), bind_Ok.
Qed.

(** The search raises what the first failing centre computation
    raises. *)
Lemma search_front_raises im (l r : linreg F) sc pre y post e :
  front_candidates im = pre ++ y :: post ->
  (forall y', y' ∈ pre -> front_score im l r y' = Ok (sc y')) ->
  front_score im l r y = Raise e ->
  search_front im l r = Raise e.
Proof.
  intros Hsplit Hpre Hy. unfold search_front.
  change (range_down (shape0 im - 20) (shape0 im - 200)) with (front_candidates im).
  rewrite Hsplit, for_each_app, (search_front_loop im l r sc _ _ Hpre), bind_Ok.
  by rewrite for_each_cons, Hy.
Qed.



End EdgeModel.

(** With exact rationals every centre computation succeeds. *)
Lemma front_scores_Q im (l r : linreg Q) :
  front_scores im l r (fun y => value_or 0 (front_score im l r y)).
Proof. intros y _. reflexivity. Qed.



(** The exception is the [IndexError] of the row index [ymax]. *)
Example front_annotation_raises_IndexError :
  find_front_edge true (blank 0) (LinReg 0%Q 0%Q) (LinReg 0%Q 0%Q) = Raise IndexError.
Proof. by vm_compute. Qed.

(** ** [is_hole] *)

Lemma list_min_spec d a l :
  list_min d (a :: l) ∈ a :: l /\ forall b, b ∈ a :: l -> list_min d (a :: l) <= b.
Proof.
  simpl. induction l as [|c l [IHin IHle]].
  { simpl. split; [apply list_elem_of_here|].
    intros b Hb. apply list_elem_of_singleton in Hb as ->. lia. }
  simpl. split.
  - destruct (Z.min_spec c (foldr Z.min a l)) as [[_ ->]|[_ ->]].
    + apply list_elem_of_further, list_elem_of_here.
    + apply elem_of_cons in IHin as [Heq|Hin];
        [rewrite Heq; apply list_elem_of_here|].
      by apply list_elem_of_further, list_elem_of_further.
  - intros b Hb. apply elem_of_cons in Hb as [->|Hb].
    + specialize (IHle a (list_elem_of_here _ _)). lia.
    + apply elem_of_cons in Hb as [->|Hb]; [lia|].
      specialize (IHle b (list_elem_of_further _ _ _ Hb)). lia.
Qed.

(** [min_ww] is attained at a candidate offset and bounds every window
    sum from below. *)
Lemma min_ww_spec im x y :
  (exists o, o ∈ offsets /\ ww im x y o = min_ww im x y)
  /\ (forall o, o ∈ offsets -> min_ww im x y <= ww im x y o).
Proof.
  unfold min_ww.
  destruct (list_min_spec 0 (ww im x y (-1, -2)) (ww im x y <$> tail offsets))
    as [Hin Hle].
  change (ww im x y (-1, -2) :: (ww im x y <$> tail offsets))
    with (ww im x y <$> offsets) in *.
  split.
  - apply list_elem_of_fmap in Hin as (o & Ho & Hin). eauto.
  - intros o Ho. apply Hle. by apply list_elem_of_fmap_2.
Qed.

(** The weight that the search ends with is the least window sum, capped
    by the sentinel. *)
Lemma search_offsets_weight im x y :
  (search_offsets im x y).1 = Z.min W_INIT (min_ww im x y).
Proof.
  destruct (min_ww_spec im x y) as [(om & Hom & Hmin) Hle].
  unfold search_offsets.
  destruct (decide (Exists (fun o => ww im x y o < W_INIT) offsets)) as [He|Hne].
  - apply Exists_exists in He.
    destruct (least_some (ww im x y) offsets W_INIT (0, 0) He) as (Hfm & Hs & Hlt).
    cbn zeta in *. destruct Hfm as (pre & post & Heq & Hpre & Hpost).
    set (r := fold_left (keep_least (ww im x y)) offsets (W_INIT, (0, 0))) in *.
    assert (Hr : r.2 ∈ offsets).
    { rewrite Heq. apply elem_of_app. right. apply list_elem_of_here. }
    assert (ww im x y r.2 <= ww im x y om).
    { rewrite Heq in Hom. apply elem_of_app in Hom as [Hom|Hom].
      - specialize (Hpre om Hom). lia.
      - apply elem_of_cons in Hom as [->|Hom]; [lia|]. by apply Hpost. }
    specialize (Hle r.2 Hr). lia.
  - rewrite least_none.
    + simpl. assert (W_INIT <= ww im x y om); [|lia].
      destruct (Z.le_gt_cases W_INIT (ww im x y om)) as [|Hgt]; [done|].
      exfalso. apply Hne, Exists_exists. exists om. split; [done | lia].
    + intros o Ho. destruct (Z.le_gt_cases W_INIT (ww im x y o)) as [|Hgt]; [done|].
      exfalso. apply Hne, Exists_exists. exists o. split; [done | lia].
Qed.

(** Below the sentinel, the offset that the search ends with is the
    first minimiser in enumeration order. *)
Lemma search_offsets_first_min im x y :
  (exists o, o ∈ offsets /\ ww im x y o < W_INIT) ->
  first_min (ww im x y) offsets (search_offsets im x y).2
  /\ (search_offsets im x y).1 = ww im x y (search_offsets im x y).2.
Proof.
  intros He. unfold search_offsets.
  destruct (least_some (ww im x y) offsets W_INIT (0, 0) He) as (Hfm & Hs & _).
  by split.
Qed.


Lemma is_hole_found debug im x y :
  (search_offsets im x y).1 < threshold im ->
  is_hole debug im x y =
  (draw_outline im x y (search_offsets im x y).2 ≫= fun im' =>
   Ok (im', {| hole := 1; weight := (search_offsets im x y).1;
               off_dx := (search_offsets im x y).2.1;
               off_dy := (search_offsets im x y).2.2 |})).
Proof.
  intros Hlt. unfold is_hole. destruct (search_offsets im x y) as [w off].
  simpl in *. by destruct (Z.ltb_spec w (threshold im)); [|lia].
Qed.

Lemma is_hole_not_found debug im x y :
  threshold im <= (search_offsets im x y).1 ->
  is_hole debug im x y =
  Ok (if debug
      then shade_window im (y - HOLE_Y) (y + HOLE_Y + 1) (x - HOLE_X) (x + HOLE_X + 1)
      else im,
      {| hole := 0; weight := 0; off_dx := 0; off_dy := 0 |}).
Proof.
  intros Hge. unfold is_hole. destruct (search_offsets im x y) as [w off].
  simpl in *. by destruct (Z.ltb_spec w (threshold im)); [lia|].
Qed.

(** The verdict is 1 exactly below the threshold, and 0 otherwise. *)
Lemma is_hole_verdict debug im x y im' v :
  is_hole debug im x y = Ok (im', v) ->
  (hole v = 1 /\ (search_offsets im x y).1 < threshold im
   /\ weight v = (search_offsets im x y).1
   /\ (off_dx v, off_dy v) = (search_offsets im x y).2)
  \/ (v = Verdict 0 0 0 0 /\ threshold im <= (search_offsets im x y).1).
Proof.
  intros Hrun.
  destruct (Z.lt_ge_cases (search_offsets im x y).1 (threshold im)) as [Hlt|Hge].
  - left. rewrite (is_hole_found _ _ _ _ Hlt) in Hrun.
    apply bind_Ok_inv in Hrun as (im1 & _ & Hrun). injection Hrun as _ <-.
    simpl. repeat split; [done|]. by destruct (search_offsets im x y).2.
  - right. rewrite (is_hole_not_found _ _ _ _ Hge) in Hrun.
    injection Hrun as _ <-. by split.
Qed.





(** One sample darker than the all-50 window, and the cell is a hole. *)
Example one_sample_darker_is_hole :
  exists im',
    is_hole false (blank_but 50 100 100 49) 100 100 = Ok (im', Verdict 1 4549 (-1) (-2)).
Proof. eexists. vm_compute. reflexivity. Qed.

(** C10: the offset search of [is_hole] always ends (no window sum can
    raise), and on a scanned image the offset it selects is the first, in
    the enumeration order dx in (-1, 0, 1) outside and dy in
    (-2, -1, 0, 1, 2) inside, of the offsets attaining the least window
    sum; that offset is the one returned with a verdict of 1. *)
Theorem offset_search_first_minimiser im x y :
  scanned_image im ->
  offsets = [(-1, -2); (-1, -1); (-1, 0); (-1, 1); (-1, 2);
             (0, -2); (0, -1); (0, 0); (0, 1); (0, 2);
             (1, -2); (1, -1); (1, 0); (1, 1); (1, 2)]
  /\ first_min (ww im x y) offsets (search_offsets im x y).2
  /\ (search_offsets im x y).1 = min_ww im x y
  /\ (forall debug im' v, is_hole debug im x y = Ok (im', v) -> hole v = 1 ->
        (off_dx v, off_dy v) = (search_offsets im x y).2).
Proof.
  intros Him. split; [reflexivity|].
  assert (He : exists o, o ∈ offsets /\ ww im x y o < W_INIT).
  { exists (0, 0). split; [by_evaluation | by apply ww_below_sentinel]. }
  destruct (search_offsets_first_min im x y He) as [Hfm Hs].
  split; [exact Hfm|]. split.
  - rewrite search_offsets_weight.
    destruct (min_ww_spec im x y) as [(om & Hom & Hmin) _].
    pose proof (ww_below_sentinel im x y om Him). lia.
  - intros debug im' v Hrun Hh.
    destruct (is_hole_verdict _ _ _ _ _ _ Hrun) as [(_ & _ & _ & Hoff)|(-> & _)];
      [exact Hoff | discriminate].
Qed.

Lemma scanned_blank v : 0 <= v <= 65535 -> scanned_image (blank v).
Proof. intros Hv. repeat split; simpl; try lia; vm_compute; discriminate. Qed.

Lemma offset_search_first_minimiser_witness :
  (search_offsets (blank 0) (-206) 1143).2 = (-1, -2)
  /\ first_min (ww (blank 0) (-206) 1143) offsets (search_offsets (blank 0) (-206) 1143).2.
Proof.
  split; [by vm_compute|].
  apply (offset_search_first_minimiser (blank 0) (-206) 1143).
  apply scanned_blank. lia.
Defined.

(** ** [find_holes] *)

Section Scan.
Context {F : Type} `{PyFloat F}.
Variables (debug : bool) (l r : linreg F) (yf : Z).

Lemma scan_cell_eq front col st acc row :
  scan_cell front debug l r yf col (st, acc) row =
  (probe_cell debug l r yf st col row ≫= fun res =>
   Ok (tune st res.1 res.2,
       if front then acc ++ [hole res.2] else hole res.2 :: acc)).
Proof.
  unfold scan_cell, probe_cell. cbn [fst snd].
  by destruct (probe_point l r yf st col row).
Qed.

Lemma detect_rows_cons col row rows st :
  detect_rows debug l r yf col (row :: rows) st =
  (probe_cell debug l r yf st col row ≫= fun res =>
   detect_rows debug l r yf col rows (tune st res.1 res.2) ≫= fun rest =>
   Ok (rest.1, hole res.2 :: rest.2)).
Proof.
  cbn [detect_rows]. unfold probe_cell.
  by destruct (probe_point l r yf st col row).
Qed.

(** The column loop hands the classifications to the column list in
    detection order, at the end for a front face and at the head for a
    back face. *)
Lemma scan_cells_detect front col rows st acc :
  for_each (scan_cell front debug l r yf col) rows (st, acc) =
  (detect_rows debug l r yf col rows st ≫= fun res =>
   Ok (res.1, if front then acc ++ res.2 else reverse res.2 ++ acc)).
Proof.
  revert st acc. induction rows as [|row rows IH]; intros st acc.
  { cbn [for_each detect_rows]. rewrite bind_Ok. cbn [fst snd].
    destruct front; [by rewrite app_nil_r | done]. }
  rewrite for_each_cons, detect_rows_cons, scan_cell_eq.
  destruct (probe_cell debug l r yf st col row) as [[im' v]|]; [|reflexivity].
  rewrite !bind_Ok. cbn [fst snd]. rewrite IH.
  destruct (detect_rows debug l r yf col rows (tune st im' v)) as [[st' hs]|];
    [|reflexivity].
  rewrite !bind_Ok. cbn [fst snd]. destruct front.
  - by rewrite <- app_assoc.
  - by rewrite reverse_cons, <- app_assoc.
Qed.

Lemma scan_column_detect front col st hs :
  scan_column front debug l r yf (st, hs) col =
  (detect_rows debug l r yf col (range 1 13) st ≫= fun res =>
   Ok (res.1, hs ++ [if front then res.2 else reverse res.2])).
Proof.
  unfold scan_column. cbn [fst snd]. rewrite scan_cells_detect.
  destruct (detect_rows debug l r yf col (range 1 13) st) as [[st' col_list]|];
    [|reflexivity].
  rewrite !bind_Ok. cbn [fst snd]. destruct front; [done|]. by rewrite app_nil_r.
Qed.

Lemma scan_columns_back cols st (hs : list (list Z)) :
  for_each (scan_column false debug l r yf) cols (st, reverse <$> hs) =
  (for_each (scan_column true debug l r yf) cols (st, hs) ≫=
   fun res : scan_state F * list (list Z) => Ok (res.1, reverse <$> res.2)).
Proof.
  revert st hs. induction cols as [|col cols IH]; intros st hs; [reflexivity|].
  cbn [for_each]. rewrite !scan_column_detect.
  destruct (detect_rows debug l r yf col (range 1 13) st) as [[st' col_list]|];
    [|reflexivity].
  rewrite !bind_Ok. cbn [fst snd].
  replace ((reverse <$> hs) ++ [reverse col_list])
    with (reverse <$> (hs ++ [col_list])) by (by rewrite fmap_app).
  apply IH.
Qed.

(** C7: every column list is built from the 12 classifications of its
    cells in detection order (rows 1 to 12): with [front=True] the
    stored list is that sequence, with [front=False] it is its
    reverse; and a back-face scan of an image yields, column by column,
    the reversed lists of the front-face scan of the same image. *)
Theorem back_face_reverses_columns im :
  (forall front col st hs,
     scan_column front debug l r yf (st, hs) col =
     (detect_rows debug l r yf col (range 1 13) st ≫= fun res =>
      Ok (res.1, hs ++ [if front then res.2 else reverse res.2])))
  /\ find_holes false debug im l r yf =
     (find_holes true debug im l r yf ≫=
      fun res : scan_state F * list (list Z) => Ok (res.1, reverse <$> res.2)).
Proof.
  split; [intros; apply scan_column_detect|].
  unfold find_holes. apply (scan_columns_back _ _ []).
Qed.

(** The classifications of a column are as many as its rows. *)
Lemma detect_rows_length col rows st st' hs :
  detect_rows debug l r yf col rows st = Ok (st', hs) ->
  length hs = length rows.
Proof.
  revert st st' hs. induction rows as [|row rows IH]; intros st st' hs Hrun.
  { cbn [detect_rows] in Hrun. by injection Hrun as _ <-. }
  rewrite detect_rows_cons in Hrun.
  apply bind_Ok_inv in Hrun as ([im' v] & _ & Hrun).
  apply bind_Ok_inv in Hrun as ([st1 hs1] & Hrest & Hrun).
  injection Hrun as _ <-. cbn [length snd]. f_equal. exact (IH _ _ _ Hrest).
Qed.

Lemma scan_columns_shape front cols st hs st' hs' :
  for_each (scan_column front debug l r yf) cols (st, hs) = Ok (st', hs') ->
  length hs' = (length hs + length cols)%nat
  /\ (Forall (fun col_list => length col_list = 12%nat) hs ->
      Forall (fun col_list => length col_list = 12%nat) hs').
Proof.
  revert st hs. induction cols as [|col cols IH]; intros st hs Hrun.
  { rewrite for_each_nil in Hrun. injection Hrun as _ <-.
    split; [simpl; lia | done]. }
  rewrite for_each_cons, scan_column_detect in Hrun.
  apply bind_Ok_inv in Hrun as (acc & Hcol & Hrun).
  apply bind_Ok_inv in Hcol as ([st1 col_list] & Hdet & Hcol).
  injection Hcol as <-. cbn [fst snd] in Hrun.
  destruct (IH _ _ Hrun) as [Hlen Hall]. split.
  - rewrite Hlen, length_app. simpl. lia.
  - intros Hhs. apply Hall, Forall_app. split; [done|].
    apply Forall_singleton. apply detect_rows_length in Hdet.
    destruct front; [|rewrite length_reverse]; exact Hdet.
Qed.

(** A completed scan has 80 columns of 12 rows. *)
Lemma find_holes_shape front im st hs :
  find_holes front debug im l r yf = Ok (st, hs) ->
  length hs = 80%nat /\ Forall (fun col_list => length col_list = 12%nat) hs.
Proof.
  unfold find_holes. intros Hrun.
  destruct (scan_columns_shape _ _ _ _ _ _ Hrun) as [Hlen Hall].
  split; [exact Hlen | by apply Hall].
Qed.
End Scan.

(** ** Drift *)

(** The offset that the search ends with is one of the 15 candidates. *)
Lemma search_offsets_elem im x y : (search_offsets im x y).2 ∈ offsets.
Proof.
  destruct (decide (Exists (fun o => ww im x y o < W_INIT) offsets)) as [He|Hne].
  - apply Exists_exists in He.
    apply (first_min_elem (ww im x y)). by apply search_offsets_first_min.
  - unfold search_offsets. rewrite least_none; [by_evaluation|].
    intros o Ho. destruct (Z.le_gt_cases W_INIT (ww im x y o)) as [|Hgt]; [done|].
    exfalso. apply Hne, Exists_exists. exists o. split; [done | lia].
Qed.

Section Drift.
Context {F : Type} `{PyFloat F}.
Variables (debug : bool) (l r : linreg F) (yf : Z).

Lemma bind_assoc {A B C : Type} (m : result A) (f : A -> result B) (g : B -> result C) :
  ((m ≫= f) ≫= g) = (m ≫= fun a => f a ≫= g).
Proof. by destruct m. Qed.

Lemma scan_step_eq st col row :
  scan_step debug l r yf st (col, row) =
  (probe_cell debug l r yf st col row ≫= fun res =>
   Ok (tune st res.1 res.2)).
Proof.
  unfold scan_step, probe_cell. cbn [fst snd].
  by destruct (probe_point l r yf st col row).
Qed.

(** A cell that is classified has its probe point. *)
Lemma probe_cell_inv st col row im' v :
  probe_cell debug l r yf st col row = Ok (im', v) ->
  exists xy, probe_point l r yf st col row = Ok xy
             /\ is_hole debug (s_im st) xy.1 xy.2 = Ok (im', v).
Proof.
  unfold probe_cell. intros Hrun.
  apply bind_Ok_inv in Hrun as (xy & Hxy & His). by exists xy.
Qed.

(** The state after the cells of a column is that of running them one
    by one. *)
Lemma detect_rows_steps col rows st :
  (detect_rows debug l r yf col rows st ≫= fun res => Ok res.1) =
  for_each (scan_step debug l r yf) ((fun row => (col, row)) <$> rows) st.
Proof.
  revert st. induction rows as [|row rows IH]; intros st; [reflexivity|].
  rewrite detect_rows_cons, fmap_cons, for_each_cons, scan_step_eq.
  destruct (probe_cell debug l r yf st col row) as [[im' v]|]; [|reflexivity].
  rewrite !bind_Ok. cbn [fst snd]. rewrite <- IH.
  by destruct (detect_rows debug l r yf col rows (tune st im' v)) as [[st' hs]|].
Qed.

Lemma scan_columns_steps front cols st hs :
  (for_each (scan_column front debug l r yf) cols (st, hs) ≫= fun res => Ok res.1) =
  for_each (scan_step debug l r yf)
    (flat_map (fun col => (fun row => (col, row)) <$> range 1 13) cols) st.
Proof.
  revert st hs. induction cols as [|col cols IH]; intros st hs; [reflexivity|].
  rewrite for_each_cons, scan_column_detect. cbn [flat_map].
  rewrite for_each_app, <- detect_rows_steps.
  destruct (detect_rows debug l r yf col (range 1 13) st) as [[st' col_list]|];
    [|reflexivity].
  rewrite !bind_Ok. cbn [fst snd]. apply IH.
Qed.

Lemma find_holes_steps front im :
  (find_holes front debug im l r yf ≫= fun res => Ok res.1) =
  for_each (scan_step debug l r yf) cells (scan_init im).
Proof. unfold find_holes, cells. apply scan_columns_steps. Qed.

(** A completed scan ends in the state reached by running the 960
    cells one after the other from [scan_init]. *)
Lemma find_holes_run front im st hs :
  find_holes front debug im l r yf = Ok (st, hs) ->
  for_each (scan_step debug l r yf) cells (scan_init im) = Ok st.
Proof.
  intros Hrun. rewrite <- (find_holes_steps front), Hrun, bind_Ok. reflexivity.
Qed.

(** What one cell does to the drift. *)
Lemma scan_step_drift st cell st' :
  scan_step debug l r yf st cell = Ok st' ->
  exists xy im' v,
    probe_point l r yf st cell.1 cell.2 = Ok xy
    /\ is_hole debug (s_im st) xy.1 xy.2 = Ok (im', v)
    /\ s_im st' = im'
    /\ ((hole v = 0 /\ delta_x st' = delta_x st /\ delta_y st' = delta_y st)
        \/ (hole v = 1
            /\ delta_x st' = (delta_x st +~ of_int (off_dx v) *~ FINE_TUNE)%F
            /\ delta_y st' = (delta_y st +~ of_int (off_dy v) *~ FINE_TUNE)%F
            /\ (off_dx v, off_dy v) = (search_offsets (s_im st) xy.1 xy.2).2
            /\ -1 <= off_dx v <= 1 /\ -2 <= off_dy v <= 2)).
Proof.
  unfold scan_step. intros Hstep.
  apply bind_Ok_inv in Hstep as (xy & Hxy & Hstep).
  apply bind_Ok_inv in Hstep as ([im' v] & His & Hstep).
  injection Hstep as <-. exists xy, im', v. split; [exact Hxy|]. split; [exact His|].
  destruct (is_hole_verdict _ _ _ _ _ _ His) as [(Hh & _ & _ & Hoff)|(-> & _)].
  - unfold tune. cbn [fst snd]. rewrite Hh. simpl. split; [done|]. right.
    repeat split; try done.
    all: pose proof (search_offsets_elem (s_im st) xy.1 xy.2) as Hin;
      apply offsets_bounds in Hin; rewrite <- Hoff in Hin; simpl in Hin; lia.
  - unfold tune. simpl. split; [done|]. left. by repeat split.
Qed.

(** C9: the drift of a scan starts at (0, 0); a completed scan is the
    run of the 960 cells, one after the other, each starting from the
    drift the previous one left (it is never reset); a cell classified
    unpunched leaves the drift as it was; a cell classified punched adds
    [FINE_TUNE] times the selected offset [(dx, dy)] to it, where
    [|dx| <= 1] and [|dy| <= 2]. *)
Theorem drift_changes_only_on_detection front im :
  (delta_x (scan_init im) = of_int 0 /\ delta_y (scan_init im) = of_int 0)
  /\ (forall st hs, find_holes front debug im l r yf = Ok (st, hs) ->
        for_each (scan_step debug l r yf) cells (scan_init im) = Ok st)
  /\ (forall before cell st st',
        for_each (scan_step debug l r yf) before (scan_init im) = Ok st ->
        for_each (scan_step debug l r yf) (before ++ [cell]) (scan_init im) = Ok st' ->
        exists xy im' v,
          probe_point l r yf st cell.1 cell.2 = Ok xy
          /\ is_hole debug (s_im st) xy.1 xy.2 = Ok (im', v)
          /\ ((hole v = 0 /\ delta_x st' = delta_x st /\ delta_y st' = delta_y st)
              \/ (hole v = 1
                  /\ delta_x st' = (delta_x st +~ of_int (off_dx v) *~ FINE_TUNE)%F
                  /\ delta_y st' = (delta_y st +~ of_int (off_dy v) *~ FINE_TUNE)%F
                  /\ (off_dx v, off_dy v) = (search_offsets (s_im st) xy.1 xy.2).2
                  /\ -1 <= off_dx v <= 1 /\ -2 <= off_dy v <= 2))).
Proof.
  split; [by split|]. split; [intros st hs; apply find_holes_run|].
  intros before cell st st' Hbefore Hafter.
  rewrite for_each_app, Hbefore, bind_Ok, for_each_cons in Hafter.
  apply bind_Ok_inv in Hafter as (st1 & Hstep & Hnil).
  rewrite for_each_nil in Hnil. injection Hnil as <-.
  destruct (scan_step_drift _ _ _ Hstep) as (xy & im' & v & Hxy & His & _ & Hcases).
  by exists xy, im', v.
Qed.
End Drift.

Lemma drift_changes_only_on_detection_witness :
  exists st',
    for_each (scan_step false (LinReg 0%Q 0%Q) (LinReg 0%Q 0%Q) 1181)
      ([] ++ [(1, 1)]) (scan_init (blank 0)) = Ok st'
    /\ delta_x st' = Qred (0 + Qred (inject_Z (-1) * (5 # 100)))%Q
    /\ delta_y st' = Qred (0 + Qred (inject_Z (-2) * (5 # 100)))%Q.
Proof.
  eexists. split; [cbv; reflexivity|].
  match goal with |- delta_x ?s = _ /\ _ =>
    destruct (proj2 (proj2 (drift_changes_only_on_detection
                              false (LinReg 0%Q 0%Q) (LinReg 0%Q 0%Q) 1181 true (blank 0)))
                [] (1, 1) (scan_init (blank 0)) s)
      as (xy & im' & v & Hxy & His & Hcases)
  end.
  - reflexivity.
  - vm_compute. reflexivity.
  - vm_compute in Hxy. injection Hxy as <-.
    vm_compute in His. injection His as _ <-.
    destruct Hcases as [(Hh & _)|(_ & Hx & Hy & _)]; [discriminate|].
    split; [exact Hx | exact Hy].
Defined.

(** ** Column values *)

(** The value of a column of 12 rows: the entry at position [row]
    (counted from 1) weighs [2^(12-row)]. *)
Lemma column_value_weights (col_list : list Z) :
  length col_list = 12%nat ->
  column_value col_list =
  Zsum ((fun row => (col_list !!! Z.to_nat (row - 1)) * 2 ^ (12 - row)) <$> range 1 13).
Proof.
  intros Hlen.
  do 13 (destruct col_list as [|? col_list]; try discriminate Hlen).
  vm_compute range. unfold column_value. cbn [reverse rev_append].
  cbn. eval_closed. lia.
Qed.

Section Values.
Context {F : Type} `{PyFloat F}.
Variable linregress : list Z -> list Z -> result (linreg F).

(** What [__init__] leaves in [self.holes] and [self.values]. *)
Lemma PunchedCard_inv im front debug c :
  PunchedCard linregress im front debug = Ok c ->
  exists im1 st,
    find_holes front debug im1 (lrl c) (lrr c) (y_front c) = Ok (st, holes c)
    /\ c_im c = s_im st
    /\ values c = column_value <$> holes c.
Proof.
  unfold PunchedCard. intros Hrun.
  apply bind_Ok_inv in Hrun as ([[im1 l] r] & _ & Hrun).
  apply bind_Ok_inv in Hrun as ([im2 yf] & _ & Hrun).
  apply bind_Ok_inv in Hrun as ([st hs] & Hfh & Hrun).
  injection Hrun as <-. exists im2, st. by repeat split.
Qed.

(** C2: after a completed scan there are 80 column values, and the
    value of every column c in 1..80 is the sum over the rows r = 1..12
    of hole(c, r) * 2^(12 - r): row 1 weighs 2^11 and row 12 weighs
    2^0. *)
Theorem column_values_weigh_rows im front debug c :
  PunchedCard linregress im front debug = Ok c ->
  length (holes c) = 80%nat
  /\ length (values c) = 80%nat
  /\ forall col, 1 <= col <= 80 ->
       values c !! Z.to_nat (col - 1) =
       Some (Zsum ((fun row => hole_at c col row * 2 ^ (12 - row)) <$> range 1 13)).
Proof.
  intros Hrun.
  destruct (PunchedCard_inv _ _ _ _ Hrun) as (im1 & st & Hfh & _ & Hval).
  destruct (find_holes_shape _ _ _ _ _ _ _ _ Hfh) as [Hlen Hrows].
  split; [exact Hlen|]. split; [by rewrite Hval, length_fmap|].
  intros col Hcol. rewrite Hval, list_lookup_fmap.
  destruct (lookup_lt_is_Some_2 (holes c) (Z.to_nat (col - 1))) as [col_list Hlook];
    [lia|].
  rewrite Hlook. simpl. f_equal.
  rewrite (column_value_weights col_list).
  - unfold hole_at. by rewrite (list_lookup_total_correct _ _ _ Hlook).
  - by apply (Forall_lookup_1 _ _ _ _ Hrows Hlook).
Qed.
End Values.

Lemma column_values_weigh_rows_witness :
  exists c : card Q,
    PunchedCard const_fit punched_card_scan true false = Ok c
    /\ length (values c) = 80%nat
    /\ values c !! Z.to_nat (80 - 1) =
       Some (Zsum ((fun row => hole_at c 80 row * 2 ^ (12 - row)) <$> range 1 13)).
Proof.
  assert (Hex : exists c, PunchedCard const_fit punched_card_scan true false = Ok c)
    by (eexists; vm_compute; reflexivity).
  destruct Hex as [c Hrun]. exists c. split; [exact Hrun|].
  destruct (column_values_weigh_rows const_fit punched_card_scan true false c Hrun)
    as (_ & Hlen & Hcols).
  split; [exact Hlen|]. apply Hcols. lia.
Defined.

(** ** The image during a read without debugging *)

(** C3: reading [punched_card_scan] as a front face with no debug image
    (the float operations evaluated exactly): both card edges are found
    at the same x on every sampled row, so the regressions are constant;
    the read completes, with the front edge at y = 1150; the hole of
    column 80, row 12 is found (the last column value is 2^0); and the
    sample at row 83, column 507, which is 0 at entry, is 255 in the image
    afterwards: the outline of the hole has been drawn into the image. *)
Theorem outline_drawn_without_debug :
  left (skew_loop punched_card_scan) = replicate 9 58
  /\ right (skew_loop punched_card_scan) = replicate 9 548
  /\ exists c : card Q,
       PunchedCard const_fit punched_card_scan true false = Ok c
       /\ y_front c = 1150
       /\ values c !! 79%nat = Some 1
       /\ pix punched_card_scan 83 507 0 = 0
       /\ pix (c_im c) 83 507 0 = 255.
Proof.
  split; [by vm_compute|]. split; [by vm_compute|].
  eexists. split; [vm_compute; reflexivity|].
  repeat split; vm_compute; reflexivity.
Qed.

(** Without debugging, a cell classified unpunched leaves the image as it
    was, and whatever [is_hole] writes is the value 255. *)
Lemma is_hole_quiet im x y im' v :
  is_hole false im x y = Ok (im', v) ->
  (hole v = 0 -> im' = im)
  /\ same_shape im im'
  /\ forall i j k, pix im' i j k = 255 \/ pix im' i j k = pix im i j k.
Proof.
  intros Hrun.
  destruct (Z.lt_ge_cases (search_offsets im x y).1 (threshold im)) as [Hlt|Hge].
  - rewrite (is_hole_found _ _ _ _ Hlt) in Hrun.
    apply bind_Ok_inv in Hrun as (im1 & Hdraw & Hrun). injection Hrun as <- <-.
    split; [discriminate|].
    set (P := fun im0 : image =>
           same_shape im im0
           /\ forall i j k, pix im0 i j k = 255 \/ pix im0 i j k = pix im i j k).
    assert (Hstep : forall s r c s', P s -> set_pixel s r c 255 = Ok s' -> P s').
    { intros s r c s' [(S0 & S1 & S2) Hpix] Hset. split.
      - unfold set_pixel in Hset.
        apply bind_Ok_inv in Hset as (r' & _ & Hset).
        apply bind_Ok_inv in Hset as (c' & _ & Hset).
        injection Hset as <-. by repeat split.
      - intros i j k.
        destruct (set_pixel_sample _ _ _ _ _ Hset i j k) as [->| ->];
          [by left | apply Hpix]. }
    assert (P im) as HP0 by (split; [by repeat split | by right]).
    unfold draw_outline in Hdraw. cbn zeta in Hdraw.
    apply bind_Ok_inv in Hdraw as (im2 & Hfirst & Hsecond).
    assert (P im2) as HP2.
    { refine (for_each_preserves P _ _ _ _ HP0 _ Hfirst).
      intros s d s' _ Hs Hbody.
      apply bind_Ok_inv in Hbody as (s1 & Hw1 & Hbody).
      apply bind_Ok_inv in Hbody as (s2 & Hw2 & Hbody).
      apply bind_Ok_inv in Hbody as (s3 & Hw3 & Hw4).
      eauto using Hstep. }
    refine (for_each_preserves P _ _ _ _ HP2 _ Hsecond).
    intros s d s' _ Hs Hbody.
    apply bind_Ok_inv in Hbody as (s1 & Hw1 & Hbody).
    apply bind_Ok_inv in Hbody as (s2 & Hw2 & Hbody).
    apply bind_Ok_inv in Hbody as (s3 & Hw3 & Hw4).
    eauto using Hstep.
  - rewrite (is_hole_not_found _ _ _ _ Hge) in Hrun. injection Hrun as <- <-.
    split; [done|]. split; [by repeat split | by right].
Qed.

Section Quiet.
Context {F : Type} `{PyFloat F}.
Variable linregress : list Z -> list Z -> result (linreg F).

(** Without a debug image, a completed read leaves every sample as it was
    at entry or at 255, the value of the outlines. *)
Lemma PunchedCard_quiet im front c :
  PunchedCard linregress im front false = Ok c ->
  forall i j k, pix (c_im c) i j k = 255 \/ pix (c_im c) i j k = pix im i j k.
Proof.
  unfold PunchedCard. intros Hrun.
  apply bind_Ok_inv in Hrun as ([[im1 l] r] & Hsk & Hrun). cbn [fst snd] in Hrun.
  apply measure_skew_quiet_inv in Hsk as ->.
  apply bind_Ok_inv in Hrun as ([im2 yf] & Hfe & Hrun). cbn [fst snd] in Hrun.
  apply find_front_edge_quiet_inv in Hfe as [-> _].
  apply bind_Ok_inv in Hrun as ([st hs] & Hfh & Hrun). injection Hrun as <-.
  cbn [c_im fst]. apply find_holes_run in Hfh.
  refine (for_each_preserves
            (fun s => forall i j k,
                 pix (s_im s) i j k = 255 \/ pix (s_im s) i j k = pix im i j k)
            _ _ _ _ _ _ Hfh).
  - intros i j k. by right.
  - intros s cell s' _ Hs Hstep.
    destruct (scan_step_drift _ _ _ _ _ _ _ Hstep) as (xy & im' & v & _ & His & Him & _).
    rewrite Him. destruct (is_hole_quiet _ _ _ _ _ His) as (_ & _ & Hpix).
    intros i j k. destruct (Hpix i j k) as [-> | ->]; [by left | apply Hs].
Qed.
End Quiet.

(** ** The table *)

Lemma dict_of_items_absent items (d : gmap Z Z) k :
  k ∉ items.*1 ->
  fold_left (fun d kv => <[kv.1 := kv.2]> d) items d !! k = d !! k.
Proof.
  revert d. induction items as [|[k' v'] items IH]; intros d Hk; [reflexivity|].
  simpl in *. apply not_elem_of_cons in Hk as [Hne Hk].
  rewrite IH by done. by apply lookup_insert_ne.
Qed.

(** C8: the keys written in the table are pairwise distinct, so the
    mapping has one entry per written pair, 256 in total; every key is
    in [0, 4095], every value is in [0, 255] and is what the mapping
    holds for its key; and looking up, with default 0, a column value
    that is not a key of the table yields 0. *)
Theorem hollerith_table_complete :
  NoDup (HOLLERITH_TO_EBCDIC_items.*1)
  /\ length HOLLERITH_TO_EBCDIC_items = 256%nat
  /\ size HOLLERITH_TO_EBCDIC = 256%nat
  /\ Forall (fun kv => 0 <= kv.1 <= 4095 /\ 0 <= kv.2 <= 255
                       /\ HOLLERITH_TO_EBCDIC !! kv.1 = Some kv.2)
       HOLLERITH_TO_EBCDIC_items
  /\ forall k, k ∉ HOLLERITH_TO_EBCDIC_items.*1 -> dict_get HOLLERITH_TO_EBCDIC k 0 = 0.
Proof.
  split; [by_evaluation|]. split; [by vm_compute|]. split; [by vm_compute|].
  split; [by_evaluation|].
  intros k Hk. unfold dict_get, HOLLERITH_TO_EBCDIC, dict_of_items.
  by rewrite dict_of_items_absent.
Qed.

Lemma hollerith_table_complete_witness :
  dict_get HOLLERITH_TO_EBCDIC 4095 0 = 0.
Proof.
  apply hollerith_table_complete. by_evaluation.
Defined.

(** * Further properties of the reader *)

(** ** The sampled rows of [measure_skew] *)

Lemma skew_fold_lists im rows st :
  ys (fold_left (skew_step im) rows st) = ys st ++ rows
  /\ length (left (fold_left (skew_step im) rows st)) = (length (left st) + length rows)%nat
  /\ length (right (fold_left (skew_step im) rows st)) = (length (right st) + length rows)%nat.
Proof.
  revert st. induction rows as [|y rows IH]; intros st.
  { simpl. rewrite app_nil_r. repeat split; lia. }
  cbn [fold_left]. destruct (IH (skew_step im st y)) as (Hy & Hl & Hr).
  rewrite Hy, Hl, Hr. cbn [skew_step ys left right]. rewrite !length_app.
  cbn [length]. rewrite <- app_assoc. split; [done | lia].
Qed.

(** X1: [measure_skew] samples exactly the rows y = 100, 200, ... below
    [ymax - 200]; each is a valid row of the image; the three lists
    [ys], [left] and [right] have one entry per sampled row; and an
    image of at most 300 rows gives no sample at all, so that
    [linregress] receives empty lists. *)
Theorem measure_skew_samples im :
  ys (skew_loop im) = skew_rows im
  /\ length (left (skew_loop im)) = length (skew_rows im)
  /\ length (right (skew_loop im)) = length (skew_rows im)
  /\ (forall y, y ∈ skew_rows im <->
        100 <= y < shape0 im - 200 /\ y mod 100 = 0)
  /\ (forall y, y ∈ skew_rows im -> index (shape0 im) y = Ok y)
  /\ (shape0 im <= 300 -> skew_rows im = []).
Proof.
  destruct (skew_fold_lists im (skew_rows im) (skew_init im)) as (Hy & Hl & Hr).
  assert (Hrows : forall y, y ∈ skew_rows im <->
                    100 <= y < shape0 im - 200 /\ y mod 100 = 0).
  { intros y. unfold skew_rows. rewrite elem_of_range_step by lia.
    replace (y - 100) with (y + (-1) * 100) by lia. by rewrite Z.mod_add. }
  split; [exact Hy|]. split; [exact Hl|]. split; [exact Hr|].
  split; [exact Hrows|]. split.
  - intros y Hin. apply Hrows in Hin as [Hin _]. unfold index.
    destruct (Z.leb_spec 0 y); [|lia]. by destruct (Z.ltb_spec y (shape0 im)); [|lia].
  - intros Hsmall. destruct (skew_rows im) as [|y rows] eqn:E; [done|].
    pose proof (proj1 (Hrows y) (list_elem_of_here y rows)) as Hin. lia.
Qed.

Lemma measure_skew_samples_witness :
  skew_rows (blank 0) = [100; 200; 300; 400; 500; 600; 700; 800; 900]
  /\ index (shape0 (blank 0)) 900 = Ok 900.
Proof.
  split; [by vm_compute|].
  apply (measure_skew_samples (blank 0)). by_evaluation.
Defined.

(** ** The low-pass step *)

(** X2: the centre carried to the next row lies between the old centre
    and the x found; at a distance of 8 pixels or more it moves strictly
    toward the x found without reaching it; a found x less than 8 pixels
    to the right of a non-negative centre leaves the centre where it is,
    whereas any found x to the left of a positive centre moves it to the
    left ([int] truncates toward zero). *)
Theorem lowpass_step_bounds c x :
  Z.min c x <= lowpass c x <= Z.max c x
  /\ (8 <= Z.abs (x - c) -> lowpass c x <> c /\ lowpass c x <> x)
  /\ (0 <= c -> c <= x < c + 8 -> lowpass c x = c)
  /\ (0 < c -> x < c -> lowpass c x < c).
Proof.
  unfold lowpass.
  pose proof (Z.quot_rem' (8 * c + (x - c)) 8) as Hqr.
  pose proof (Z.rem_bound_abs (8 * c + (x - c)) 8 ltac:(lia)) as Hr.
  assert (Hsign : 0 <= 8 * c + (x - c) -> 0 <= Z.rem (8 * c + (x - c)) 8)
    by (intros; apply Z.rem_nonneg; lia).
  assert (Hsign' : 8 * c + (x - c) <= 0 -> Z.rem (8 * c + (x - c)) 8 <= 0)
    by (intros; apply Z.rem_nonpos; lia).
  repeat split; intros; lia.
Qed.

Lemma lowpass_step_bounds_witness :
  lowpass 50 57 = 50 /\ lowpass 50 49 < 50 /\ lowpass 50 58 <> 50.
Proof.
  split; [apply (lowpass_step_bounds 50 57); lia|].
  split; [apply (lowpass_step_bounds 50 49); lia|].
  apply (lowpass_step_bounds 50 58); lia.
Defined.

(** ** Where the edge searches can find an edge *)

Lemma find_peak_cases {A : Type} (score : A -> Z) l b p :
  find_peak score l (b, p) = (b, p)
  \/ ((find_peak score l (b, p)).1 ∈ l /\ p < score (find_peak score l (b, p)).1).
Proof.
  destruct (decide (Exists (fun x => p < score x) l)) as [He|Hne].
  - right. apply Exists_exists in He.
    destruct (find_peak_some score l b p He) as (Hfm & Hs & Hgt).
    split; [by apply (first_max_elem score)|]. cbn zeta in Hs. by rewrite <- Hs.
  - left. apply find_peak_none. intros x Hx.
    destruct (Z.le_gt_cases (score x) p) as [|Hgt]; [done|].
    exfalso. apply Hne, Exists_exists. exists x. split; [done | lia].
Qed.

Lemma fold_left_preserves {A S : Type} (P : S -> Prop) (step : S -> A -> S) l st :
  P st -> (forall s a, P s -> P (step s a)) -> P (fold_left step l st).
Proof.
  revert st. induction l as [|a l IH]; intros st Hst Hstep; [done|].
  simpl. apply IH; [by apply Hstep | done].
Qed.

Lemma search_right_cases im y c :
  search_right im y c = 0 \/ c - EDGE_WIN <= search_right im y c < c + EDGE_WIN.
Proof.
  unfold search_right.
  destruct (find_peak_cases (right_score im y)
              (range (c - EDGE_WIN) (c + EDGE_WIN)) 0 0) as [-> | [Hin _]];
    [by left | right]. by apply elem_of_range in Hin.
Qed.

Lemma Zsum_nonneg {A : Type} (f : A -> Z) (l : list A) :
  (forall a, 0 <= f a) -> 0 <= Zsum (f <$> l).
Proof.
  intros Hf. induction l as [|a l IH]; [done|].
  rewrite fmap_cons. change (Zsum (f a :: (f <$> l))) with (f a + Zsum (f <$> l)).
  specialize (Hf a). lia.
Qed.

Lemma row_sum_nonneg im y lo hi :
  (forall r c k, 0 <= pix im r c k) -> 0 <= row_sum im y lo hi.
Proof.
  intros Hpix. unfold row_sum. apply Zsum_nonneg. intros c.
  unfold pixel_sum. apply Zsum_nonneg. intros k. apply Hpix.
Qed.

(** A candidate just left of column 0 has an empty window on its right:
    the slice starts near the right border and stops before it starts. *)
Lemma left_score_wrapped im y x :
  (forall r c k, 0 <= pix im r c k) -> EDGE_WIN <= shape1 im ->
  - EDGE_WIN <= x < 0 -> left_score im y x <= 0.
Proof.
  intros Hpix Hn Hx. unfold left_score. cbn zeta.
  pose proof (row_sum_nonneg im y (x - EDGE_WIN) x Hpix) as Hdark.
  assert (Hlight : row_sum im y x (x + EDGE_WIN) = 0); [|lia].
  unfold row_sum, slice, range, slice_bound, EDGE_WIN in *.
  destruct (Z.ltb_spec x 0); [|lia]. destruct (Z.ltb_spec (x + 10) 0); [lia|].
  by rewrite seqZ_nil by lia.
Qed.

Lemma search_left_cases im y c :
  (forall r c k, 0 <= pix im r c k) -> EDGE_WIN <= shape1 im -> 0 <= c ->
  0 <= search_left im y c < c + EDGE_WIN.
Proof.
  intros Hpix Hn Hc. unfold search_left.
  destruct (find_peak_cases (left_score im y)
              (range (c - EDGE_WIN) (c + EDGE_WIN)) 0 0) as [-> | [Hin Hpos]].
  { simpl. unfold EDGE_WIN. lia. }
  apply elem_of_range in Hin.
  set (xl := (find_peak (left_score im y)
                (range (c - EDGE_WIN) (c + EDGE_WIN)) (0, 0)).1) in *.
  split; [|lia].
  destruct (Z.lt_ge_cases xl 0) as [Hneg|]; [|done].
  assert (Hb : - EDGE_WIN <= xl < 0) by lia.
  pose proof (left_score_wrapped im y xl Hpix Hn Hb). lia.
Qed.

Lemma lowpass_nonneg c x :
  0 <= c -> 0 <= x < c + EDGE_WIN -> 0 <= lowpass c x <= c + 1.
Proof.
  intros Hc Hx. unfold lowpass, EDGE_WIN in *.
  rewrite Z.quot_div_nonneg by lia.
  split; [apply Z.div_pos; lia|].
  apply Z.lt_succ_r, Z.div_lt_upper_bound; lia.
Qed.

Lemma skew_fold_left_bounds im rows st (k : nat) :
  (forall r c k, 0 <= pix im r c k) -> EDGE_WIN <= shape1 im ->
  length (left st) = k -> 0 <= cl st <= 50 + Z.of_nat k ->
  (forall j x, left st !! j = Some x -> 0 <= x < 60 + Z.of_nat j) ->
  forall j x, left (fold_left (skew_step im) rows st) !! j = Some x ->
              0 <= x < 60 + Z.of_nat j.
Proof.
  intros Hpix Hn. revert st k.
  induction rows as [|y rows IH]; intros st k Hlen Hcl Hleft; [exact Hleft|].
  cbn [fold_left].
  pose proof (search_left_cases im y (cl st) Hpix Hn ltac:(lia)) as Hxl.
  apply (IH _ (S k)).
  - cbn [skew_step left]. rewrite length_app. simpl. lia.
  - cbn [skew_step cl]. pose proof (lowpass_nonneg (cl st) _ ltac:(lia) Hxl). lia.
  - cbn [skew_step left]. intros j x Hj.
    apply lookup_app_Some in Hj as [Hj | [Hge Hj]]; [by apply Hleft|].
    apply list_lookup_singleton_Some in Hj as [Hj0 <-].
    unfold EDGE_WIN in *. lia.
Qed.

(** X3: whatever the image, every x recorded for the right edge is 0 or
    lies within 10 pixels of [xmax - 50], the centre that the right
    search never leaves; and on an image of non-negative samples, at
    least 10 columns wide, the x recorded for the left edge on the j-th
    sampled row (counted from 0) is at least 0 and below 60 + j: the
    centre of the left search moves to the right by at most one pixel
    per sampled row, and no negative candidate is ever selected. *)
Theorem edge_positions_bounded im :
  (forall x, x ∈ right (skew_loop im) ->
     x = 0 \/ shape1 im - 60 <= x < shape1 im - 40)
  /\ ((forall r c k, 0 <= pix im r c k) -> 10 <= shape1 im ->
      forall j x, left (skew_loop im) !! j = Some x -> 0 <= x < 60 + Z.of_nat j).
Proof.
  split.
  - assert (Hinv : cr (skew_loop im) = shape1 im + EXPECT_RIGHT_EDGE
                   /\ Forall (fun x => x = 0 \/ shape1 im - 60 <= x < shape1 im - 40)
                        (right (skew_loop im))).
    { unfold skew_loop.
      apply (fold_left_preserves
               (fun st => cr st = shape1 im + EXPECT_RIGHT_EDGE
                          /\ Forall (fun x => x = 0 \/ shape1 im - 60 <= x < shape1 im - 40)
                               (right st))).
      - split; [reflexivity | constructor].
      - intros st y [Hcr Hall]. split; [by rewrite skew_step_cr|].
        cbn [skew_step right]. apply Forall_app. split; [done|].
        apply Forall_singleton.
        destruct (search_right_cases im y (cr st)) as [-> | Hin]; [by left | right].
        rewrite Hcr in Hin |- *. unfold EXPECT_RIGHT_EDGE, EDGE_WIN in Hin |- *. lia. }
    intros x Hx. destruct Hinv as [_ Hall].
    by apply (proj1 (Forall_forall _ _) Hall).
  - intros Hpix Hn. unfold skew_loop.
    apply (skew_fold_left_bounds im _ _ 0%nat Hpix); unfold EDGE_WIN; done.
Qed.

Lemma edge_positions_bounded_witness :
  exists x, left (skew_loop card_scan) !! 8%nat = Some x /\ 0 <= x < 60 + Z.of_nat 8.
Proof.
  eexists. split; [by vm_compute|].
  refine (proj2 (edge_positions_bounded card_scan) _ _ 8%nat _ _).
  - intros r c k. simpl. destruct (on_card r c); lia.
  - simpl. lia.
  - by vm_compute.
Defined.

(** ** The front edge *)

Lemma lookup_range_down a b (i : nat) y :
  range_down a b !! i = Some y -> y = a - Z.of_nat i.
Proof.
  unfold range_down. rewrite list_lookup_fmap. intros Hy.
  destruct (seqZ 0 (a - b) !! i) as [j|] eqn:Hj; [|discriminate].
  apply lookup_seqZ in Hj as [-> _]. simpl in Hy. injection Hy as <-. lia.
Qed.

Lemma elem_of_range_down y a b : y ∈ range_down a b <-> b < y <= a.
Proof.
  unfold range_down. rewrite list_elem_of_fmap. split.
  - intros (i & -> & Hi). apply elem_of_seqZ in Hi. lia.
  - intros Hy. exists (a - y). split; [lia|]. apply elem_of_seqZ. lia.
Qed.

(** In a descending range, what follows an element is smaller. *)
Lemma range_down_after a b pre x post y :
  range_down a b = pre ++ x :: post -> y ∈ post -> y < x.
Proof.
  intros Heq Hy. apply list_elem_of_lookup in Hy as [j Hj].
  assert (Hx : range_down a b !! length pre = Some x).
  { rewrite Heq. by rewrite list_lookup_middle. }
  assert (Hy : range_down a b !! (length pre + S j)%nat = Some y).
  { rewrite Heq. rewrite lookup_app_r by lia.
    replace (length pre + S j - length pre)%nat with (S j) by lia. exact Hj. }
  apply lookup_range_down in Hx, Hy. lia.
Qed.

Section FrontEdge.
Context {F : Type} `{PyFloat F}.

(** X4: the candidate rows of the front-edge search are the rows
    [ymax - 199] to [ymax - 20]. The search returns only if the centre
    computation succeeds at every candidate row. When it does, the
    search returns a row, which is [ymax] itself or a candidate, and
    without a debug image [find_front_edge] returns that row and leaves
    the image as it was; when moreover some candidate has a positive
    contrast, the row found is a candidate of the greatest contrast, and
    the lowest one in the image (the greatest y) among those. *)
Theorem front_edge_selection im (l r : linreg F) :
  (forall y, y ∈ front_candidates im <-> shape0 im - 200 < y <= shape0 im - 20)
  /\ (forall yb, search_front im l r = Ok yb -> exists sc, front_scores im l r sc)
  /\ (forall sc, front_scores im l r sc ->
      exists yb,
        search_front im l r = Ok yb
        /\ find_front_edge false im l r = Ok (im, yb)
        /\ (yb = shape0 im \/ yb ∈ front_candidates im)
        /\ ((exists y, y ∈ front_candidates im /\ 0 < sc y) ->
            yb ∈ front_candidates im
            /\ 0 < sc yb
            /\ forall y, y ∈ front_candidates im ->
                 sc y <= sc yb /\ (sc y = sc yb -> y <= yb))).
Proof.
  split; [intros y; apply elem_of_range_down|].
  split.
  { intros yb Hrun. unfold search_front in Hrun.
    apply bind_Ok_inv in Hrun as (st & Hloop & _).
    exists (fun y => value_or 0 (front_score im l r y)). intros y Hy.
    destruct (for_each_elem (fun _ => True) _ _ _ _ Hloop I (fun _ _ _ _ _ => I) y Hy)
      as (s & s' & _ & Hbody).
    apply bind_Ok_inv in Hbody as (score & -> & _). reflexivity. }
  intros sc Hsc.
  set (yb := (find_peak sc (front_candidates im) (shape0 im, 0)).1).
  assert (Hyb : search_front im l r = Ok yb) by apply (search_front_scores im l r sc Hsc).
  exists yb. split; [exact Hyb|].
  split; [by rewrite find_front_edge_quiet, Hyb, bind_Ok|].
  split.
  { unfold yb.
    destruct (find_peak_cases sc (front_candidates im) (shape0 im) 0)
      as [-> | [Hin _]]; [by left | by right]. }
  intros Hex.
  destruct (find_peak_some sc (front_candidates im) (shape0 im) 0 Hex)
    as (Hfm & Hs & Hgt).
  cbn zeta in *. fold yb in Hfm, Hs, Hgt.
  split; [by apply (first_max_elem sc)|].
  split; [by rewrite <- Hs|].
  destruct Hfm as (pre & post & Heq & Hpre & Hpost).
  intros y Hy. rewrite Heq in Hy.
  apply elem_of_app in Hy as [Hy|Hy].
  { specialize (Hpre y Hy). lia. }
  apply elem_of_cons in Hy as [->|Hy]; [lia|].
  split; [by apply Hpost|]. intros _.
  pose proof (range_down_after _ _ _ _ _ _ Heq Hy). lia.
Qed.
End FrontEdge.

Lemma front_edge_selection_witness :
  find_front_edge false card_scan (LinReg 0%Q 58%Q) (LinReg 0%Q 548%Q)
  = Ok (card_scan, 1150)
  /\ 0 < value_or 0 (front_score card_scan (LinReg 0%Q 58%Q) (LinReg 0%Q 548%Q) 1150).
Proof.
  destruct (proj2 (proj2 (front_edge_selection card_scan
                            (LinReg 0%Q 58%Q) (LinReg 0%Q 548%Q)))
              _ (front_scores_Q card_scan (LinReg 0%Q 58%Q) (LinReg 0%Q 548%Q)))
    as (yb & Hyb & Hfe & _ & Hpos).
  assert (Hval : search_front card_scan (LinReg 0%Q 58%Q) (LinReg 0%Q 548%Q) = Ok 1150)
    by (by vm_compute).
  rewrite Hval in Hyb. injection Hyb as <-.
  split; [exact Hfe|]. apply Hpos. exists 1150. split; by_evaluation.
Defined.

(** ** The hole grid and the column values *)

Lemma Zsum_imap_double {A : Type} (f : nat -> A -> Z) (l : list A) :
  Zsum (imap (fun n x => 2 * f n x) l) = 2 * Zsum (imap f l).
Proof.
  revert f. induction l as [|a l IH]; intros f; [reflexivity|].
  rewrite !imap_cons.
  change (Zsum (2 * f 0%nat a :: imap ((fun n x => 2 * f n x) ∘ S) l))
    with (2 * f 0%nat a + Zsum (imap (fun n x => 2 * (f ∘ S) n x) l)).
  rewrite IH.
  change (Zsum (f 0%nat a :: imap (f ∘ S) l)) with (f 0%nat a + Zsum (imap (f ∘ S) l)).
  lia.
Qed.

(** The column value is the big-endian binary number of the column
    list: one more row doubles it and adds the new entry. *)
Lemma column_value_snoc r b : column_value (r ++ [b]) = 2 * column_value r + b.
Proof.
  unfold column_value. rewrite reverse_snoc, imap_cons.
  change (Zsum (2 ^ Z.of_nat 0 * b
                :: imap ((fun n x => 2 ^ Z.of_nat n * x) ∘ S) (reverse r)))
    with (2 ^ Z.of_nat 0 * b
          + Zsum (imap ((fun n x => 2 ^ Z.of_nat n * x) ∘ S) (reverse r))).
  rewrite (imap_ext _ (fun n x => 2 * (2 ^ Z.of_nat n * x))).
  - rewrite Zsum_imap_double. simpl (2 ^ Z.of_nat 0). lia.
  - intros n x _. simpl. rewrite Nat2Z.inj_succ, Z.pow_succ_r by lia. lia.
Qed.

Lemma column_value_range r :
  Forall is_bit r -> 0 <= column_value r < 2 ^ Z.of_nat (length r).
Proof.
  induction r as [|b r IH] using rev_ind; intros Hbits; [by vm_compute|].
  apply Forall_app in Hbits as [Hr Hb]. rewrite Forall_singleton in Hb.
  specialize (IH Hr). rewrite column_value_snoc, length_app. simpl length.
  replace (Z.of_nat (length r + 1)) with (Z.succ (Z.of_nat (length r))) by lia.
  rewrite Z.pow_succ_r by lia. destruct Hb as [Hb | Hb]; lia.
Qed.

(** The entry at position [i] of a column list is the bit of weight
    [2^(length - 1 - i)] of its column value. *)
Lemma column_value_testbit r :
  Forall is_bit r ->
  forall (i : nat) h, r !! i = Some h ->
    h = Z.b2z (Z.testbit (column_value r) (Z.of_nat (length r) - 1 - Z.of_nat i)).
Proof.
  induction r as [|b r IH] using rev_ind; intros Hbits i h Hi.
  { by rewrite lookup_nil in Hi. }
  apply Forall_app in Hbits as [Hr Hb]. rewrite Forall_singleton in Hb.
  assert (Hb' : exists bb : bool, b = Z.b2z bb).
  { destruct Hb as [-> | ->]; [by exists false | by exists true]. }
  destruct Hb' as [bb ->].
  rewrite column_value_snoc, length_app. simpl length.
  apply lookup_app_Some in Hi as [Hi | [Hge Hi]].
  - pose proof (lookup_lt_Some _ _ _ Hi) as Hlt.
    replace (Z.of_nat (length r + 1) - 1 - Z.of_nat i)
      with (Z.succ (Z.of_nat (length r) - 1 - Z.of_nat i)) by lia.
    rewrite Z.testbit_succ_r by lia. by apply IH.
  - apply list_lookup_singleton_Some in Hi as [Hi0 <-].
    replace (Z.of_nat (length r + 1) - 1 - Z.of_nat i) with 0 by lia.
    by rewrite Z.testbit_0_r.
Qed.

Section Grid.
Context {F : Type} `{PyFloat F}.
Variable linregress : list Z -> list Z -> result (linreg F).

Lemma is_hole_bit debug im x y im' v :
  is_hole debug im x y = Ok (im', v) -> is_bit (hole v).
Proof.
  intros Hrun.
  destruct (is_hole_verdict _ _ _ _ _ _ Hrun) as [(Hh & _)|(-> & _)];
    [by right | by left].
Qed.

Lemma detect_rows_bits debug (l r : linreg F) yf col rows st st' hs :
  detect_rows debug l r yf col rows st = Ok (st', hs) -> Forall is_bit hs.
Proof.
  revert st st' hs. induction rows as [|row rows IH]; intros st st' hs Hrun.
  { cbn [detect_rows] in Hrun. injection Hrun as _ <-. constructor. }
  rewrite detect_rows_cons in Hrun.
  apply bind_Ok_inv in Hrun as ([im' v] & His & Hrun).
  apply probe_cell_inv in His as (xy & _ & His).
  apply bind_Ok_inv in Hrun as ([st1 hs1] & Hrest & Hrun).
  injection Hrun as _ <-. cbn [fst snd]. constructor.
  - by apply (is_hole_bit _ _ _ _ _ _ His).
  - by apply (IH _ _ _ Hrest).
Qed.

Lemma find_holes_bits front debug im (l r : linreg F) yf st hs :
  find_holes front debug im l r yf = Ok (st, hs) -> Forall (Forall is_bit) hs.
Proof.
  unfold find_holes. intros Hrun.
  refine (for_each_preserves (fun acc => Forall (Forall is_bit) acc.2)
            _ _ _ _ _ _ Hrun); [constructor|].
  intros [s acc] col [s' acc'] _ Hacc Hcol. cbn [snd] in *.
  rewrite scan_column_detect in Hcol.
  apply bind_Ok_inv in Hcol as ([s1 col_list] & Hdet & Hcol).
  injection Hcol as _ <-. cbn [fst snd].
  apply Forall_app. split; [done|]. apply Forall_singleton.
  apply detect_rows_bits in Hdet.
  destruct front; [done|]. by apply Forall_reverse.
Qed.

(** X5: a constructed card has a hole grid of exactly 80 columns of 12
    entries, every entry being 0 or 1, and 80 column values, every one
    of them a 12-bit integer in [0, 4095]. *)
Theorem hole_grid_well_formed im front debug c :
  PunchedCard linregress im front debug = Ok c ->
  length (holes c) = 80%nat
  /\ Forall (fun col_list => length col_list = 12%nat /\ Forall is_bit col_list)
       (holes c)
  /\ length (values c) = 80%nat
  /\ Forall (fun v => 0 <= v <= 4095) (values c).
Proof.
  intros Hrun.
  destruct (PunchedCard_inv _ _ _ _ _ Hrun) as (im1 & st & Hfh & _ & Hval).
  destruct (find_holes_shape _ _ _ _ _ _ _ _ Hfh) as [Hlen Hrows].
  pose proof (find_holes_bits _ _ _ _ _ _ _ _ Hfh) as Hbits.
  assert (Hboth : Forall (fun col_list => length col_list = 12%nat
                                          /\ Forall is_bit col_list) (holes c)).
  { apply Forall_forall. intros col_list Hin. split.
    - by apply (proj1 (Forall_forall _ _) Hrows).
    - by apply (proj1 (Forall_forall _ _) Hbits). }
  split; [exact Hlen|]. split; [exact Hboth|].
  split; [by rewrite Hval, length_fmap|].
  rewrite Hval. apply Forall_fmap. eapply Forall_impl; [exact Hboth|].
  intros col_list [Hl Hb]. simpl.
  pose proof (column_value_range col_list Hb) as Hrange. rewrite Hl in Hrange.
  change (2 ^ Z.of_nat 12) with 4096 in Hrange. lia.
Qed.

(** X6: the hole grid can be read back from the column values: the
    entry of column c, row r is the bit of weight 2^(12 - r) of the
    value of column c. *)
Theorem values_determine_holes im front debug c :
  PunchedCard linregress im front debug = Ok c ->
  forall col row, 1 <= col <= 80 -> 1 <= row <= 12 ->
    hole_at c col row =
    Z.b2z (Z.testbit (values c !!! Z.to_nat (col - 1)) (12 - row)).
Proof.
  intros Hrun col row Hcol Hrow.
  destruct (PunchedCard_inv _ _ _ _ _ Hrun) as (im1 & st & Hfh & _ & Hval).
  destruct (find_holes_shape _ _ _ _ _ _ _ _ Hfh) as [Hlen Hrows].
  pose proof (find_holes_bits _ _ _ _ _ _ _ _ Hfh) as Hbits.
  destruct (lookup_lt_is_Some_2 (holes c) (Z.to_nat (col - 1))) as [col_list Hlook];
    [lia|].
  pose proof (Forall_lookup_1 _ _ _ _ Hrows Hlook) as Hl. simpl in Hl.
  pose proof (Forall_lookup_1 _ _ _ _ Hbits Hlook) as Hb. simpl in Hb.
  destruct (lookup_lt_is_Some_2 col_list (Z.to_nat (row - 1))) as [h Hh]; [lia|].
  unfold hole_at.
  rewrite (list_lookup_total_correct _ _ _ Hlook), (list_lookup_total_correct _ _ _ Hh).
  assert (Hv : values c !!! Z.to_nat (col - 1) = column_value col_list).
  { apply list_lookup_total_correct. by rewrite Hval, list_lookup_fmap, Hlook. }
  rewrite Hv, (column_value_testbit col_list Hb _ _ Hh), Hl. f_equal. f_equal. lia.
Qed.
End Grid.

(** The two example scans, read once. *)
Lemma card_scan_read_eq :
  PunchedCard const_fit card_scan true false = card_scan_read.
Proof. vm_compute. reflexivity. Qed.

Lemma punched_card_scan_read_eq :
  PunchedCard const_fit punched_card_scan true false = punched_card_scan_read.
Proof. vm_compute. reflexivity. Qed.

Lemma hole_grid_well_formed_witness :
  exists c : card Q,
    PunchedCard const_fit punched_card_scan true false = Ok c
    /\ length (holes c) = 80%nat
    /\ Forall (fun v => 0 <= v <= 4095) (values c).
Proof.
  pose proof punched_card_scan_read_eq as Hrun. unfold punched_card_scan_read in Hrun.
  eexists. split; [exact Hrun|].
  destruct (hole_grid_well_formed const_fit _ _ _ _ Hrun) as (Hlen & _ & _ & Hval).
  by split.
Defined.

Lemma values_determine_holes_witness :
  exists c : card Q,
    PunchedCard const_fit punched_card_scan true false = Ok c
    /\ hole_at c 80 12 = Z.b2z (Z.testbit (values c !!! Z.to_nat (80 - 1)) (12 - 12)).
Proof.
  pose proof punched_card_scan_read_eq as Hrun. unfold punched_card_scan_read in Hrun.
  eexists. split; [exact Hrun|].
  apply (values_determine_holes const_fit _ _ _ _ Hrun); lia.
Defined.

(** ** The table and [ebcdic] *)

Lemma table_values_are_bytes k v :
  HOLLERITH_TO_EBCDIC !! k = Some v -> 0 <= v <= 255.
Proof.
  revert k v. apply (map_Forall_lookup (fun _ v => 0 <= v <= 255)).
  by_evaluation.
Qed.

(** [d.get(k, 0)] is a value of [d], or 0. *)
Lemma dict_get_cases (d : gmap Z Z) k :
  d !! k = Some (dict_get d k 0) \/ (d !! k = None /\ dict_get d k 0 = 0).
Proof. unfold dict_get. destruct (d !! k); [by left | by right]. Qed.

Lemma dict_get_byte k : 0 <= dict_get HOLLERITH_TO_EBCDIC k 0 <= 255.
Proof.
  destruct (dict_get_cases HOLLERITH_TO_EBCDIC k) as [Hk | [_ ->]]; [|lia].
  by apply (table_values_are_bytes k).
Qed.

(** X7: whatever the column values are, [ebcdic] yields one byte per
    column and every byte is in [0, 255], so that [bytes(...)] cannot
    fail. *)
Theorem ebcdic_bytes {F : Type} (c : card F) :
  length (ebcdic c) = length (values c)
  /\ Forall (fun b => 0 <= b <= 255) (ebcdic c).
Proof.
  unfold ebcdic. split; [apply length_fmap|].
  apply Forall_fmap, Forall_forall. intros v _. simpl. apply dict_get_byte.
Qed.

Lemma NoDup_snd_inj {A B : Type} (l : list (A * B)) a1 a2 b :
  NoDup (l.*2) -> (a1, b) ∈ l -> (a2, b) ∈ l -> a1 = a2.
Proof.
  induction l as [|[a b'] l IH]; intros Hnd H1 H2.
  { by apply elem_of_nil in H1. }
  simpl in Hnd. apply NoDup_cons in Hnd as [Hnotin Hnd].
  apply elem_of_cons in H1 as [H1|H1]; apply elem_of_cons in H2 as [H2|H2].
  - congruence.
  - injection H1 as -> ->. exfalso. apply Hnotin.
    apply list_elem_of_fmap. by exists (a2, b').
  - injection H2 as -> ->. exfalso. apply Hnotin.
    apply list_elem_of_fmap. by exists (a1, b').
  - by apply IH.
Qed.

(** X8: the table is a bijection between its 256 keys and the 256 byte
    values: every byte in [0, 255] is the code of some hole pattern, and
    of one only. Hence a byte other than 0 in the result of [ebcdic]
    determines the column value it comes from; the byte 0 does not,
    being both the code of a key and the default of every pattern that
    is not a key. *)
Theorem hollerith_table_bijective :
  (forall b, 0 <= b <= 255 -> exists k, HOLLERITH_TO_EBCDIC !! k = Some b)
  /\ (forall k1 k2 b,
        HOLLERITH_TO_EBCDIC !! k1 = Some b -> HOLLERITH_TO_EBCDIC !! k2 = Some b ->
        k1 = k2)
  /\ (forall k1 k2,
        dict_get HOLLERITH_TO_EBCDIC k1 0 = dict_get HOLLERITH_TO_EBCDIC k2 0 ->
        dict_get HOLLERITH_TO_EBCDIC k1 0 <> 0 -> k1 = k2)
  /\ (exists k1 k2, k1 <> k2
        /\ dict_get HOLLERITH_TO_EBCDIC k1 0 = 0 /\ dict_get HOLLERITH_TO_EBCDIC k2 0 = 0).
Proof.
  assert (Hinj : forall k1 k2 b,
             HOLLERITH_TO_EBCDIC !! k1 = Some b -> HOLLERITH_TO_EBCDIC !! k2 = Some b ->
             k1 = k2).
  { intros k1 k2 b H1 H2. apply elem_of_map_to_list in H1, H2.
    refine (NoDup_snd_inj _ _ _ _ _ H1 H2). by_evaluation. }
  split; [|split; [exact Hinj | split]].
  - intros b Hb.
    assert (Hin : b ∈ (map_to_list HOLLERITH_TO_EBCDIC).*2).
    { revert b Hb.
      assert (Hall : Forall (fun b => b ∈ (map_to_list HOLLERITH_TO_EBCDIC).*2)
                       (range 0 256)) by by_evaluation.
      intros b Hb. apply (proj1 (Forall_forall _ _) Hall). apply elem_of_range. lia. }
    apply list_elem_of_fmap in Hin as ([k b'] & -> & Hin).
    exists k. by apply elem_of_map_to_list.
  - intros k1 k2 Heq Hne.
    destruct (dict_get_cases HOLLERITH_TO_EBCDIC k1) as [H1 | [_ H1]];
      [|exfalso; exact (Hne H1)].
    destruct (dict_get_cases HOLLERITH_TO_EBCDIC k2) as [H2 | [_ H2]];
      [|exfalso; apply Hne; rewrite Heq; exact H2].
    rewrite <- Heq in H2. exact (Hinj k1 k2 _ H1 H2).
  - exists (bin "101100000011"), 4095. repeat split; by vm_compute.
Qed.

Lemma hollerith_table_bijective_witness :
  exists k, HOLLERITH_TO_EBCDIC !! k = Some 0x40.
Proof. apply hollerith_table_bijective. lia. Defined.

(** ** When [is_hole] raises *)

Lemma draw_outline_Ok_inv im x y o im' :
  draw_outline im x y o = Ok im' -> outline_in_range im x y o.
Proof.
  unfold draw_outline. cbn zeta. intros Hdraw.
  apply bind_Ok_inv in Hdraw as (im1 & Hfirst & _).
  destruct (for_each_elem (same_shape im) _ _ _ _ Hfirst) with (a := HOLE_X)
    as (s & s' & (S0 & S1 & _) & Hbody).
  - by repeat split.
  - intros s a s' Hs Hbody.
    apply bind_Ok_inv in Hbody as (s1 & Hw1 & Hbody).
    apply bind_Ok_inv in Hbody as (s2 & Hw2 & Hbody).
    apply bind_Ok_inv in Hbody as (s3 & Hw3 & Hw4).
    apply set_pixel_Ok_inv in Hw1 as (_ & _ & T1), Hw2 as (_ & _ & T2),
      Hw3 as (_ & _ & T3), Hw4 as (_ & _ & T4).
    eauto using same_shape_trans.
  - by_evaluation.
  - apply bind_Ok_inv in Hbody as (s1 & Hw1 & Hbody).
    apply bind_Ok_inv in Hbody as (s2 & Hw2 & Hbody).
    apply bind_Ok_inv in Hbody as (s3 & Hw3 & Hw4).
    apply set_pixel_Ok_inv in Hw1 as (R1 & C1 & (A0 & A1 & _)).
    apply set_pixel_Ok_inv in Hw2 as (R2 & C2 & (B0 & B1 & _)).
    apply set_pixel_Ok_inv in Hw3 as (R3 & C3 & _).
    unfold outline_in_range. lia.
Qed.

(** The four writes of an outline loop raise nothing but
    [IndexError]. *)
Lemma four_writes_exn im r1 c1 r2 c2 r3 c3 r4 c4 v e :
  (set_pixel im r1 c1 v ≫= fun im1 =>
   set_pixel im1 r2 c2 v ≫= fun im2 =>
   set_pixel im2 r3 c3 v ≫= fun im3 =>
   set_pixel im3 r4 c4 v) = Raise e ->
  e = IndexError.
Proof.
  destruct (set_pixel im r1 c1 v) as [im1|e1] eqn:H1;
    [rewrite bind_Ok | intros [= <-]; by apply set_pixel_exn in H1].
  destruct (set_pixel im1 r2 c2 v) as [im2|e2] eqn:H2;
    [rewrite bind_Ok | intros [= <-]; by apply set_pixel_exn in H2].
  destruct (set_pixel im2 r3 c3 v) as [im3|e3] eqn:H3;
    [rewrite bind_Ok | intros [= <-]; by apply set_pixel_exn in H3].
  apply set_pixel_exn.
Qed.

Lemma draw_outline_exn im x y o e :
  draw_outline im x y o = Raise e -> e = IndexError.
Proof.
  unfold draw_outline. cbn zeta.
  match goal with |- (?first ≫= _) = _ -> _ =>
    destruct first as [im1|e1] eqn:Hfirst
  end.
  - rewrite bind_Ok.
    apply (for_each_exn (fun e => e = IndexError)).
    intros s a e' _. apply four_writes_exn.
  - intros [= <-]. revert Hfirst.
    apply (for_each_exn (fun e => e = IndexError)).
    intros s a e' _. apply four_writes_exn.
Qed.

(** X9: [is_hole] raises nothing but [IndexError], and it raises it
    exactly when it finds a hole (the least window sum is below the
    threshold) whose outline, placed at row [y + dx] and column [x + dy]
    for the selected offset [(dx, dy)], leaves the index range of the
    image; a cell classified unpunched never raises, and debugging makes
    no difference to this. *)
Theorem is_hole_raises debug im x y :
  (is_hole debug im x y = Raise IndexError <->
   (search_offsets im x y).1 < threshold im
   /\ ~ outline_in_range im x y (search_offsets im x y).2)
  /\ (forall e, is_hole debug im x y = Raise e -> e = IndexError).
Proof.
  destruct (Z.lt_ge_cases (search_offsets im x y).1 (threshold im)) as [Hlt|Hge].
  - rewrite (is_hole_found _ _ _ _ Hlt).
    destruct (draw_outline im x y (search_offsets im x y).2) as [im'|e0] eqn:Hdraw.
    + apply draw_outline_Ok_inv in Hdraw. rewrite bind_Ok.
      split; [|discriminate].
      split; [discriminate | intros [_ Hno]; contradiction].
    + apply draw_outline_exn in Hdraw as Hexn. subst e0.
      split; [|by intros e [= <-]].
      split; [intros _ | reflexivity]. split; [done|].
      intros (Hy0 & Hy1 & Hx0 & Hx1).
      destruct (draw_outline_ok im x y _ Hy0 Hy1 Hx0 Hx1) as (im' & Hok & _).
      congruence.
  - rewrite (is_hole_not_found _ _ _ _ Hge).
    split; [|discriminate]. split; [discriminate|]. lia.
Qed.

(** A hole found two rows above the bottom of an all-black image. *)
Example is_hole_raises_at_bottom :
  is_hole false (blank 0) 100 1179 = Raise IndexError.
Proof. by vm_compute. Qed.

(** ** The image and the drift after a read without debugging *)

Section Frame.
Context {F : Type} `{PyFloat F}.
Variable linregress : list Z -> list Z -> result (linreg F).

(** A column without a hole leaves the image and the drift alone. *)
Lemma detect_rows_no_hole (l r : linreg F) yf col rows st st' hs :
  detect_rows false l r yf col rows st = Ok (st', hs) ->
  Forall (fun h => h = 0) hs -> st' = st.
Proof.
  revert st st' hs. induction rows as [|row rows IH]; intros st st' hs Hrun Hzero.
  { cbn [detect_rows] in Hrun. by injection Hrun as <- _. }
  rewrite detect_rows_cons in Hrun.
  apply bind_Ok_inv in Hrun as ([im' v] & His & Hrun).
  apply probe_cell_inv in His as (xy & _ & His).
  apply bind_Ok_inv in Hrun as ([st1 hs1] & Hrest & Hrun).
  injection Hrun as <- <-. cbn [fst snd] in *.
  apply Forall_cons in Hzero as [Hv Hzero].
  rewrite (IH _ _ _ Hrest Hzero).
  destruct (is_hole_quiet _ _ _ _ _ His) as (Him & _). rewrite (Him Hv).
  unfold tune. rewrite Hv. simpl. by destruct st.
Qed.

Lemma scan_columns_no_hole front (l r : linreg F) yf cols st hs st' hs' :
  for_each (scan_column front false l r yf) cols (st, hs) = Ok (st', hs') ->
  (exists new, hs' = hs ++ new)
  /\ (Forall (Forall (fun h => h = 0)) hs' -> st' = st).
Proof.
  revert st hs. induction cols as [|col cols IH]; intros st hs Hrun.
  { rewrite for_each_nil in Hrun. injection Hrun as <- <-.
    split; [exists []; by rewrite app_nil_r | done]. }
  rewrite for_each_cons, scan_column_detect in Hrun.
  apply bind_Ok_inv in Hrun as (acc & Hcol & Hrun).
  apply bind_Ok_inv in Hcol as ([st1 col_list] & Hdet & Hcol).
  injection Hcol as <-. cbn [fst snd] in Hrun.
  destruct (IH _ _ Hrun) as [[new ->] Hst]. split.
  - exists ([if front then col_list else reverse col_list] ++ new).
    by rewrite <- app_assoc.
  - intros Hzero. rewrite (Hst Hzero).
    apply Forall_app in Hzero as [Hzero _]. apply Forall_app in Hzero as [_ Hzero].
    rewrite Forall_singleton in Hzero.
    apply (detect_rows_no_hole _ _ _ _ _ _ _ _ Hdet).
    destruct front; [done|]. by rewrite Forall_reverse in Hzero.
Qed.

Lemma find_holes_no_hole front im (l r : linreg F) yf st hs :
  find_holes front false im l r yf = Ok (st, hs) ->
  Forall (Forall (fun h => h = 0)) hs -> st = scan_init im.
Proof.
  unfold find_holes. intros Hrun.
  by destruct (scan_columns_no_hole _ _ _ _ _ _ _ _ _ Hrun) as [_ Hst].
Qed.

(** What a read without a debug image passes to [find_holes]. *)
Lemma PunchedCard_quiet_inv im front c :
  PunchedCard linregress im front false = Ok c ->
  exists st,
    find_holes front false im (lrl c) (lrr c) (y_front c) = Ok (st, holes c)
    /\ c_im c = s_im st.
Proof.
  unfold PunchedCard. intros Hrun.
  apply bind_Ok_inv in Hrun as ([[im1 l] r] & Hsk & Hrun). cbn [fst snd] in Hrun.
  apply measure_skew_quiet_inv in Hsk as ->.
  apply bind_Ok_inv in Hrun as ([im2 yf] & Hfe & Hrun). cbn [fst snd] in Hrun.
  apply find_front_edge_quiet_inv in Hfe as [-> _].
  apply bind_Ok_inv in Hrun as ([st hs] & Hfh & Hrun). injection Hrun as <-.
  exists st. split; [exact Hfh | reflexivity].
Qed.

Lemma column_value_zero col_list :
  Forall (fun h => h = 0) col_list -> column_value col_list = 0.
Proof.
  induction col_list as [|b col_list IH] using rev_ind; intros Hzero; [reflexivity|].
  apply Forall_app in Hzero as [Hr Hb]. rewrite Forall_singleton in Hb.
  rewrite column_value_snoc, (IH Hr), Hb. reflexivity.
Qed.

(** X10: a read without a debug image that finds no hole leaves the
    image exactly as it was; all 80 column values are 0, and [ebcdic]
    yields 80 times the byte 0x40. *)
Theorem read_without_hole im front c :
  PunchedCard linregress im front false = Ok c ->
  Forall (Forall (fun h => h = 0)) (holes c) ->
  c_im c = im
  /\ values c = replicate 80 0
  /\ ebcdic c = replicate 80 0x40.
Proof.
  intros Hrun Hzero.
  assert (Hval : values c = replicate 80 0).
  { destruct (PunchedCard_inv _ _ _ _ _ Hrun) as (im1 & st & Hfh & _ & Hval).
    destruct (find_holes_shape _ _ _ _ _ _ _ _ Hfh) as [Hlen _].
    rewrite Hval. apply list_eq_same_length with 80%nat;
      [by rewrite length_replicate | by rewrite length_fmap|].
    intros i v v' Hi Hv Hv'. apply lookup_replicate in Hv' as [-> _].
    rewrite list_lookup_fmap in Hv.
    destruct (holes c !! i) as [col_list|] eqn:Hc; [|discriminate].
    injection Hv as <-. apply column_value_zero.
    by apply (Forall_lookup_1 _ _ _ _ Hzero Hc). }
  split; [|split; [exact Hval|]].
  - destruct (PunchedCard_quiet_inv _ _ _ Hrun) as (st & Hfh & ->).
    by rewrite (find_holes_no_hole _ _ _ _ _ _ _ Hfh Hzero).
  - unfold ebcdic. rewrite Hval. by vm_compute.
Qed.

(** X11: a read without a debug image never changes the shape of the
    image, and leaves every sample either as it was at entry or at 255,
    the value with which the outlines of the holes found are drawn. *)
Theorem read_without_debug_frame im front c :
  PunchedCard linregress im front false = Ok c ->
  same_shape im (c_im c)
  /\ forall i j k, pix (c_im c) i j k = 255 \/ pix (c_im c) i j k = pix im i j k.
Proof.
  intros Hrun. split; [|by apply (PunchedCard_quiet linregress im front)].
  destruct (PunchedCard_quiet_inv _ _ _ Hrun) as (st & Hfh & ->).
  apply find_holes_run in Hfh.
  refine (for_each_preserves (fun s => same_shape im (s_im s)) _ _ _ _ _ _ Hfh).
  - by repeat split.
  - intros s cell s' _ Hs Hstep.
    destruct (scan_step_drift _ _ _ _ _ _ _ Hstep) as (xy & im' & v & _ & His & Him & _).
    rewrite Him. destruct (is_hole_quiet _ _ _ _ _ His) as (_ & Hsh & _).
    by apply (same_shape_trans _ (s_im s)).
Qed.
End Frame.

Lemma read_without_hole_witness :
  exists c : card Q,
    PunchedCard const_fit card_scan true false = Ok c
    /\ c_im c = card_scan /\ ebcdic c = replicate 80 0x40.
Proof.
  pose proof card_scan_read_eq as Hrun. unfold card_scan_read in Hrun.
  eexists. split; [exact Hrun|].
  destruct (read_without_hole const_fit _ _ _ Hrun) as (Him & _ & Hbytes).
  - by_evaluation.
  - by split.
Defined.

Lemma read_without_debug_frame_witness :
  exists c : card Q,
    PunchedCard const_fit punched_card_scan true false = Ok c
    /\ same_shape punched_card_scan (c_im c).
Proof.
  pose proof punched_card_scan_read_eq as Hrun. unfold punched_card_scan_read in Hrun.
  eexists. split; [exact Hrun|].
  apply (read_without_debug_frame const_fit _ _ _ Hrun).
Defined.

(** ** The face flag *)

(** Bit [i] of the value of a column of 12 rows is its entry at position
    [11 - i]. *)
Lemma column_value_testbit12 (col_list : list Z) i :
  length col_list = 12%nat -> Forall is_bit col_list -> 0 <= i < 12 ->
  Z.b2z (Z.testbit (column_value col_list) i) = col_list !!! Z.to_nat (11 - i).
Proof.
  intros Hlen Hbits Hi.
  destruct (lookup_lt_is_Some_2 col_list (Z.to_nat (11 - i))) as [h Hh]; [lia|].
  rewrite (list_lookup_total_correct _ _ _ Hh).
  rewrite (column_value_testbit col_list Hbits _ _ Hh), Hlen.
  do 2 f_equal. lia.
Qed.

(** Reversing a column of 12 rows reverses the 12 bits of its value. *)
Lemma column_value_reverse12 (col_list : list Z) :
  length col_list = 12%nat -> Forall is_bit col_list ->
  column_value (reverse col_list) = bit_reverse12 (column_value col_list).
Proof.
  intros Hlen Hbits. unfold bit_reverse12.
  rewrite (list_fmap_ext _ (fun i => col_list !!! Z.to_nat (11 - i) * 2 ^ (11 - i))).
  - rewrite column_value_weights by (by rewrite length_reverse).
    do 13 (destruct col_list as [|? col_list]; try discriminate Hlen).
    vm_compute range. cbn [reverse rev_append]. cbn. eval_closed. lia.
  - intros n i Hn. apply list_elem_of_lookup_2, elem_of_range in Hn. simpl.
    by rewrite column_value_testbit12.
Qed.

Section Faces.
Context {F : Type} `{PyFloat F}.
Variable linregress : list Z -> list Z -> result (linreg F).

Lemma find_holes_back debug im (l r : linreg F) yf :
  find_holes false debug im l r yf =
  (find_holes true debug im l r yf ≫=
   fun res : scan_state F * list (list Z) => Ok (res.1, reverse <$> res.2)).
Proof. unfold find_holes. apply (scan_columns_back _ _ _ _ _ _ []). Qed.

(** The reading of an image as a back face, from its reading as a front
    face. *)
Lemma PunchedCard_back im debug :
  PunchedCard linregress im false debug =
  (PunchedCard linregress im true debug ≫= fun c =>
   Ok {| c_im := c_im c; lrl := lrl c; lrr := lrr c; y_front := y_front c;
         holes := reverse <$> holes c;
         values := column_value <$> (reverse <$> holes c) |}).
Proof.
  unfold PunchedCard.
  destruct (measure_skew linregress debug im) as [[[im1 l] r]|]; [|reflexivity].
  rewrite !bind_Ok. cbn [fst snd].
  destruct (find_front_edge debug im1 l r) as [[im2 yf]|]; [|reflexivity].
  rewrite !bind_Ok. cbn [fst snd]. rewrite find_holes_back.
  destruct (find_holes true debug im2 l r yf) as [[st hs]|]; reflexivity.
Qed.

(** X12: the face flag changes nothing but the order of the rows: read
    as a back face, an image gives the same image, edge model and front
    edge as read as a front face (and raises when that raises), every
    column list reversed, and every column value with its 12 bits in
    reverse order. *)
Theorem face_flag_reverses_rows im debug :
  PunchedCard linregress im false debug =
  (PunchedCard linregress im true debug ≫= fun c =>
   Ok {| c_im := c_im c; lrl := lrl c; lrr := lrr c; y_front := y_front c;
         holes := reverse <$> holes c;
         values := bit_reverse12 <$> values c |}).
Proof.
  rewrite PunchedCard_back.
  destruct (PunchedCard linregress im true debug) as [c|] eqn:Hrun; [|reflexivity].
  rewrite !bind_Ok. do 2 f_equal.
  destruct (PunchedCard_inv _ _ _ _ _ Hrun) as (im1 & st & Hfh & _ & Hval).
  destruct (find_holes_shape _ _ _ _ _ _ _ _ Hfh) as [_ Hrows].
  pose proof (find_holes_bits _ _ _ _ _ _ _ _ Hfh) as Hbits.
  rewrite Hval, <- !list_fmap_compose. apply list_fmap_ext.
  intros i col_list Hi. simpl. apply column_value_reverse12.
  - by apply (Forall_lookup_1 _ _ _ _ Hrows Hi).
  - by apply (Forall_lookup_1 _ _ _ _ Hbits Hi).
Qed.
End Faces.

(** Column 80 of the punched example reads 1 as a front face and 2^11
    as a back face. *)
Example back_reading_of_punched_card :
  exists c : card Q,
    PunchedCard const_fit punched_card_scan false false = Ok c
    /\ values c !! 79%nat = Some 2048.
Proof.
  rewrite PunchedCard_back, punched_card_scan_read_eq.
  unfold punched_card_scan_read. rewrite bind_Ok.
  eexists. split; [reflexivity|]. by vm_compute.
Qed.

(** ** [dump] *)

Lemma list_index_ok {A : Type} `{Inhabited A} (l : list A) i :
  0 <= i < Z.of_nat (length l) -> list_index l i = Ok (l !!! Z.to_nat i).
Proof.
  intros Hi. unfold list_index, index.
  destruct (Z.leb_spec 0 i); [|lia].
  destruct (Z.ltb_spec i (Z.of_nat (length l))); [|lia].
  cbn [andb]. rewrite bind_Ok.
  destruct (l !! Z.to_nat i) as [a|] eqn:E.
  - by rewrite (list_lookup_total_correct _ _ _ E).
  - apply lookup_ge_None in E. lia.
Qed.

Lemma list_index_beyond {A : Type} (l : list A) i :
  Z.of_nat (length l) <= i -> list_index l i = Raise IndexError.
Proof.
  intros Hi. unfold list_index, index.
  destruct (Z.leb_spec 0 i); [|lia].
  destruct (Z.ltb_spec i (Z.of_nat (length l))); [lia|].
  cbn [andb]. destruct (Z.leb_spec (- Z.of_nat (length l)) i);
    destruct (Z.ltb_spec i 0); cbn [andb]; try lia; reflexivity.
Qed.

(** An index into a list raises nothing but [IndexError]. *)
Lemma list_index_exn {A : Type} (l : list A) i e :
  list_index l i = Raise e -> e = IndexError.
Proof.
  unfold list_index. destruct (index (Z.of_nat (length l)) i) as [j|e1] eqn:Hj.
  - rewrite bind_Ok. destruct (l !! Z.to_nat j); [discriminate|]. by intros [= <-].
  - intros [= <-]. by apply index_exn in Hj.
Qed.

Lemma length_string_of_list_ascii l :
  String.length (string_of_list_ascii l) = length l.
Proof. induction l as [|a l IH]; [reflexivity|]. simpl. by rewrite IH. Qed.

Lemma get_string_of_list_ascii l n :
  String.get n (string_of_list_ascii l) = l !! n.
Proof.
  revert n. induction l as [|a l IH]; intros n; [reflexivity|].
  destruct n as [|n]; [reflexivity|]. simpl. apply IH.
Qed.

(** A loop that appends one item per pass collects the items. *)
Lemma for_each_collect {A B : Type} (body : list B -> A -> result (list B))
    (f : A -> B) l acc :
  (forall i a, a ∈ l -> body i a = Ok (i ++ [f a])) ->
  for_each body l acc = Ok (acc ++ (f <$> l)).
Proof.
  revert acc. induction l as [|a l IH]; intros acc Hbody.
  { simpl. by rewrite app_nil_r. }
  rewrite for_each_cons, (Hbody acc a (list_elem_of_here _ _)), bind_Ok.
  rewrite IH; [by rewrite <- app_assoc|].
  intros i b Hb. apply Hbody. by apply list_elem_of_further.
Qed.

Section Dump.
Context {F : Type} `{PyFloat F}.
Variable linregress : list Z -> list Z -> result (linreg F).
Variable decode : list Z -> string.

Lemma dump_row_ok (c : card F) row :
  length (holes c) = 80%nat ->
  Forall (fun col_list => length col_list = 12%nat) (holes c) ->
  1 <= row <= 12 ->
  dump_row c row = Ok (grid_line c row).
Proof.
  intros Hlen Hrows Hrow. unfold dump_row, grid_line.
  rewrite (for_each_collect _
             (fun col => if hole_at c col row =? 0 then "-"%char else "#"%char)).
  { by rewrite bind_Ok. }
  intros i col Hcol. apply elem_of_range in Hcol.
  rewrite (list_index_ok (holes c)) by lia. rewrite bind_Ok.
  destruct (lookup_lt_is_Some_2 (holes c) (Z.to_nat (col - 1))) as [col_list Hlook];
    [lia|].
  pose proof (Forall_lookup_1 _ _ _ _ Hrows Hlook) as Hl. simpl in Hl.
  rewrite (list_lookup_total_correct _ _ _ Hlook).
  rewrite (list_index_ok col_list) by lia. rewrite bind_Ok.
  unfold hole_at. by rewrite (list_lookup_total_correct _ _ _ Hlook).
Qed.

Lemma dump_rows_ok (c : card F) rows :
  (forall row, row ∈ rows -> dump_row c row = Ok (grid_line c row)) ->
  dump_rows c rows = {| lines := grid_line c <$> rows; ending := Ok () |}.
Proof.
  induction rows as [|row rows IH]; intros Hrows; [reflexivity|].
  cbn [dump_rows]. rewrite (Hrows row (list_elem_of_here _ _)). cbn [try_run].
  rewrite IH; [reflexivity|].
  intros r Hr. apply Hrows. by apply list_elem_of_further.
Qed.

(** X13: for a constructed card, [dump] yields the text and then the
    12 rows of the grid without raising; each row has 80 characters,
    and the character of row r at column c is ["#"] when the grid has a
    hole there and ["-"] when it has none, so that the rows determine
    the hole grid. *)
Theorem dump_of_card im front debug c :
  PunchedCard linregress im front debug = Ok c ->
  dump decode c =
    {| lines := utf8 decode c :: (grid_line c <$> range 1 13); ending := Ok () |}
  /\ forall row col, 1 <= row <= 12 -> 1 <= col <= 80 ->
       String.length (grid_line c row) = 80%nat
       /\ String.get (Z.to_nat (col - 1)) (grid_line c row) =
          Some (if hole_at c col row =? 1 then "#"%char else "-"%char).
Proof.
  intros Hrun.
  destruct (PunchedCard_inv _ _ _ _ _ Hrun) as (im1 & st & Hfh & _ & Hval).
  destruct (find_holes_shape _ _ _ _ _ _ _ _ Hfh) as [Hlen Hrows].
  pose proof (find_holes_bits _ _ _ _ _ _ _ _ Hfh) as Hbits.
  split.
  - unfold dump. rewrite dump_rows_ok; [reflexivity|].
    intros row Hrow. apply elem_of_range in Hrow. apply dump_row_ok; [done|done|lia].
  - intros row col Hrow Hcol. unfold grid_line. split.
    + by rewrite length_string_of_list_ascii, length_fmap, length_range.
    + rewrite get_string_of_list_ascii, list_lookup_fmap.
      assert (Hc : range 1 81 !! Z.to_nat (col - 1) = Some col).
      { unfold range. apply lookup_seqZ. lia. }
      rewrite Hc. simpl. f_equal.
      assert (Hb : is_bit (hole_at c col row)).
      { unfold hole_at.
        destruct (lookup_lt_is_Some_2 (holes c) (Z.to_nat (col - 1)))
          as [col_list Hlook]; [lia|].
        pose proof (Forall_lookup_1 _ _ _ _ Hrows Hlook) as Hl. simpl in Hl.
        pose proof (Forall_lookup_1 _ _ _ _ Hbits Hlook) as Hcb. simpl in Hcb.
        rewrite (list_lookup_total_correct _ _ _ Hlook).
        destruct (lookup_lt_is_Some_2 col_list (Z.to_nat (row - 1))) as [h Hh]; [lia|].
        rewrite (list_lookup_total_correct _ _ _ Hh).
        by apply (Forall_lookup_1 _ _ _ _ Hcb Hh). }
      by destruct Hb as [-> | ->].
Qed.

(** On a grid that lacks a column, or a row of a column, the generator
    ends with [IndexError] where the entry is missing. *)
Lemma dump_row_short (c : card F) row :
  (length (holes c) < 80)%nat -> dump_row c row = Raise IndexError.
Proof.
  intros Hshort. unfold dump_row.
  destruct (for_each _ (range 1 81) []) as [chars|e] eqn:Hloop.
  - exfalso.
    destruct (for_each_elem (fun _ => True) _ _ _ _ Hloop I (fun _ _ _ _ _ => I) 80)
      as (s & s' & _ & Hbody); [by_evaluation|].
    rewrite list_index_beyond in Hbody by lia. discriminate.
  - cbn. f_equal. revert Hloop. apply (for_each_exn (fun e => e = IndexError)).
    intros s col e' _ Hbody.
    destruct (list_index (holes c) (col - 1)) as [column|e1] eqn:Hcol.
    + rewrite bind_Ok in Hbody.
      destruct (list_index column (row - 1)) as [h|e2] eqn:Hh; [discriminate|].
      injection Hbody as <-. by apply list_index_exn in Hh.
    + injection Hbody as <-. by apply list_index_exn in Hcol.
Qed.
End Dump.

Lemma dump_of_card_witness :
  exists c : card Q,
    PunchedCard const_fit punched_card_scan true false = Ok c
    /\ String.get (Z.to_nat (80 - 1)) (grid_line c 12) =
       Some (if hole_at c 80 12 =? 1 then "#"%char else "-"%char).
Proof.
  pose proof punched_card_scan_read_eq as Hrun. unfold punched_card_scan_read in Hrun.
  eexists. split; [exact Hrun|].
  apply (dump_of_card const_fit latin1 _ _ _ _ Hrun); lia.
Defined.

(** ** [main] *)

Lemma run_then_done_l first rest :
  run_then (run_then first {| lines := []; ending := Ok () |}) rest
  = run_then first rest.
Proof.
  unfold run_then. destruct first as [ls [[]|]]; simpl; [|reflexivity].
  by rewrite app_nil_r.
Qed.

Lemma run_then_assoc a b c :
  run_then a (run_then b c) = run_then (run_then a b) c.
Proof.
  unfold run_then. destruct a as [la [[]|ea]], b as [lb [[]|eb]]; cbn; try reflexivity.
  by rewrite app_assoc.
Qed.

Lemma run_then_nil_l r : run_then {| lines := []; ending := Ok () |} r = r.
Proof. by destruct r. Qed.

Lemma run_each_raises {A : Type} (body : A -> run) l a :
  a ∈ l -> (exists e, ending (body a) = Raise e) ->
  exists e, ending (run_each body l) = Raise e.
Proof.
  induction l as [|b l IH]; intros Ha He.
  { by apply elem_of_nil in Ha. }
  cbn [run_each]. unfold run_then. destruct (ending (body b)) as [u|e0] eqn:E.
  - cbn [ending]. apply elem_of_cons in Ha as [-> | Ha]; [|by apply IH].
    destruct He as [e He]. congruence.
  - exists e0. exact E.
Qed.

Lemma run_each_fmap {A B : Type} (body : B -> run) (g : A -> B) (body' : A -> run) l :
  (forall a, a ∈ l -> body (g a) = body' a) ->
  run_each body (g <$> l) = run_each body' l.
Proof.
  induction l as [|a l IH]; intros Hext; [reflexivity|].
  rewrite fmap_cons. cbn [run_each].
  rewrite (Hext a (list_elem_of_here _ _)), IH; [reflexivity|].
  intros b Hb. apply Hext. by apply list_elem_of_further.
Qed.

(** The positions of the pairs: two more arguments, one more pair. *)
Lemma pair_positions_step n :
  0 <= n -> range_step 0 (n + 2) 2 = 0 :: ((fun i => i + 2) <$> range_step 0 n 2).
Proof.
  intros Hn. unfold range_step.
  replace ((n + 2 - 0 + 2 - 1) / 2) with (Z.succ ((n - 0 + 2 - 1) / 2)).
  2: { replace (n + 2 - 0 + 2 - 1) with (n - 0 + 2 - 1 + 1 * 2) by lia.
       rewrite Z.div_add by lia. lia. }
  rewrite seqZ_cons by (pose proof (Z.div_pos (n - 0 + 2 - 1) 2); lia).
  rewrite Z.pred_succ, fmap_cons. f_equal.
  rewrite <- (fmap_add_seqZ 1 0), <- !list_fmap_compose.
  apply list_fmap_ext. intros i x _. simpl. lia.
Qed.

Lemma list_index_shift {A : Type} (a b : A) l i :
  0 <= i -> list_index (a :: b :: l) (i + 2) = list_index l i.
Proof.
  intros Hi. unfold list_index, index. cbn [length].
  destruct (Z.leb_spec 0 (i + 2)); [|lia]. destruct (Z.leb_spec 0 i); [|lia].
  destruct (Z.ltb_spec (i + 2) (Z.of_nat (S (S (length l)))));
    destruct (Z.ltb_spec i (Z.of_nat (length l))); try lia; cbn [andb].
  - rewrite !bind_Ok. replace (Z.to_nat (i + 2)) with (S (S (Z.to_nat i))) by lia.
    reflexivity.
  - destruct (Z.leb_spec (- Z.of_nat (S (S (length l)))) (i + 2));
      destruct (Z.ltb_spec (i + 2) 0);
      destruct (Z.leb_spec (- Z.of_nat (length l)) i);
      destruct (Z.ltb_spec i 0); cbn [andb]; try lia; reflexivity.
Qed.

Lemma list_index_first {A : Type} (a : A) l : list_index (a :: l) 0 = Ok a.
Proof.
  unfold list_index, index. cbn [length].
  destruct (Z.ltb_spec 0 (Z.of_nat (S (length l)))); [|lia]. reflexivity.
Qed.

Lemma list_index_second {A : Type} (a b : A) l : list_index (a :: b :: l) 1 = Ok b.
Proof.
  unfold list_index, index. cbn [length].
  destruct (Z.ltb_spec 1 (Z.of_nat (S (S (length l))))); [|lia]. reflexivity.
Qed.

Lemma list_index_some {A : Type} (l : list A) i :
  0 <= i < Z.of_nat (length l) -> exists a, list_index l i = Ok a.
Proof.
  intros Hi. unfold list_index, index.
  destruct (Z.leb_spec 0 i); [|lia].
  destruct (Z.ltb_spec i (Z.of_nat (length l))); [|lia].
  cbn [andb]. rewrite bind_Ok.
  destruct (l !! Z.to_nat i) as [a|] eqn:E; [by exists a|].
  apply lookup_ge_None in E. lia.
Qed.

Section Main.
Context {F : Type} `{PyFloat F}.
Variable linregress : list Z -> list Z -> result (linreg F).
Variable imread : string -> result image.
Variable decode : list Z -> string.

Lemma dump_constructed im front debug (c : card F) :
  PunchedCard linregress im front debug = Ok c ->
  dump decode c =
    {| lines := utf8 decode c :: (grid_line c <$> range 1 13); ending := Ok () |}.
Proof.
  intros Hrun.
  destruct (PunchedCard_inv _ _ _ _ _ Hrun) as (im1 & st & Hfh & _ & Hval).
  destruct (find_holes_shape _ _ _ _ _ _ _ _ Hfh) as [Hlen Hrows].
  unfold dump. rewrite dump_rows_ok; [reflexivity|].
  intros row Hrow. apply elem_of_range in Hrow. apply dump_row_ok; [done|done|lia].
Qed.

Lemma read_card_dump fn front (c : card F) :
  read_card linregress imread fn front = Ok c ->
  dump decode c =
    {| lines := utf8 decode c :: (grid_line c <$> range 1 13); ending := Ok () |}.
Proof.
  unfold read_card. intros Hrun. apply bind_Ok_inv in Hrun as (im & _ & Hrun).
  by apply (dump_constructed im front false).
Qed.

Lemma main_pair_first fn_f fn_b rest :
  main_pair linregress imread decode (fn_f :: fn_b :: rest) 0 =
  try_run (read_card linregress imread fn_f true) (fun f =>
  try_run (read_card linregress imread fn_b false) (fun b =>
  report decode f b fn_f fn_b)).
Proof.
  unfold main_pair. rewrite list_index_first. cbn [try_run].
  destruct (read_card linregress imread fn_f true); [|reflexivity].
  cbn [try_run]. change (0 + 1) with 1. by rewrite list_index_second.
Qed.

Lemma main_pair_shift fn_f fn_b rest i :
  0 <= i ->
  main_pair linregress imread decode (fn_f :: fn_b :: rest) (i + 2) =
  main_pair linregress imread decode rest i.
Proof.
  intros Hi. unfold main_pair. rewrite list_index_shift by done.
  replace (i + 2 + 1) with (i + 1 + 2) by lia.
  by rewrite list_index_shift by lia.
Qed.

(** Two more arguments in front: their pair is handled first. *)
Lemma main_pairs_cons fn_f fn_b rest :
  run_each (main_pair linregress imread decode (fn_f :: fn_b :: rest))
    (range_step 0 (Z.of_nat (length rest) + 2) 2) =
  run_then (main_pair linregress imread decode [fn_f; fn_b] 0)
    (run_each (main_pair linregress imread decode rest)
       (range_step 0 (Z.of_nat (length rest)) 2)).
Proof.
  rewrite pair_positions_step by lia. cbn [run_each].
  rewrite !main_pair_first.
  rewrite (run_each_fmap _ _ (main_pair linregress imread decode rest));
    [reflexivity|].
  intros i Hi.
  apply elem_of_range_step in Hi; [|lia]. apply main_pair_shift. lia.
Qed.

Lemma main_one_pair prog fn_f fn_b :
  main linregress imread decode [prog; fn_f; fn_b] =
  run_then (main_pair linregress imread decode [fn_f; fn_b] 0)
    {| lines := []; ending := Ok () |}.
Proof. reflexivity. Qed.

Lemma main_split prog fn_f fn_b rest :
  main linregress imread decode (prog :: fn_f :: fn_b :: rest) =
  run_then (main linregress imread decode [prog; fn_f; fn_b])
           (main linregress imread decode (prog :: rest)).
Proof.
  rewrite main_one_pair, run_then_done_l. unfold main. cbn [length].
  replace (Z.of_nat (S (S (length rest)))) with (Z.of_nat (length rest) + 2) by lia.
  apply main_pairs_cons.
Qed.

(** The last of an odd number of files is handled after the pairs
    before it. *)
Lemma main_last prog fn k : forall pre,
  length pre = (2 * k)%nat ->
  main linregress imread decode (prog :: pre ++ [fn]) =
  run_then (main linregress imread decode (prog :: pre))
           (main linregress imread decode [prog; fn]).
Proof.
  induction k as [|k IH]; intros pre Hlen.
  - destruct pre; [|discriminate]. cbn [app].
    change (main linregress imread decode [prog])
      with {| lines := []; ending := Ok () |}.
    by rewrite run_then_nil_l.
  - destruct pre as [|a [|b pre]]; try (simpl in Hlen; lia).
    cbn [app]. rewrite (main_split prog a b (pre ++ [fn])).
    rewrite IH by (simpl in Hlen; lia).
    by rewrite run_then_assoc, <- (main_split prog a b pre).
Qed.

(** A single file: the front image is read, then the back image is
    missing. *)
Lemma main_single prog fn :
  main linregress imread decode [prog; fn] =
  try_run (read_card linregress imread fn true) (fun _ => raise_run IndexError).
Proof.
  unfold main. cbn [length]. change (range_step 0 (Z.of_nat 1) 2) with [0].
  cbn [run_each]. unfold main_pair. rewrite list_index_first. cbn [try_run].
  destruct (read_card linregress imread fn true) as [f|e]; [|reflexivity].
  cbn [try_run]. change (0 + 1) with 1.
  rewrite list_index_beyond by (simpl; lia). reflexivity.
Qed.

(** X14: [main] handles its arguments pair by pair: what it prints for
    two files followed by further files is what it prints for the two
    files alone, followed, unless that raised, by what it prints for
    the further files. *)
Theorem main_pair_by_pair prog prog' fn_f fn_b rest :
  main linregress imread decode (prog :: fn_f :: fn_b :: rest) =
  run_then (main linregress imread decode [prog'; fn_f; fn_b])
           (main linregress imread decode (prog :: rest)).
Proof.
  rewrite (main_one_pair prog'), run_then_done_l. unfold main. cbn [length].
  replace (Z.of_nat (S (S (length rest)))) with (Z.of_nat (length rest) + 2) by lia.
  rewrite pair_positions_step by lia. cbn [run_each].
  rewrite !main_pair_first.
  rewrite (run_each_fmap _ _ (main_pair linregress imread decode rest));
    [reflexivity|].
  intros i Hi.
  apply elem_of_range_step in Hi; [|lia]. apply main_pair_shift. lia.
Qed.

(** X15: for a pair of files whose readings complete, [main] prints
    one line starting with "good" when the two have the same column
    values; otherwise it prints a line starting with "bad " followed by
    the 13 lines of the dump of the front face, each after "# fs ", and
    the 13 lines of the dump of the back face, each after "# bs ". In
    both cases it ends without an exception. *)
Theorem main_reports_pair prog fn_f fn_b f b :
  read_card linregress imread fn_f true = Ok f ->
  read_card linregress imread fn_b false = Ok b ->
  let r := main linregress imread decode [prog; fn_f; fn_b] in
  ending r = Ok ()
  /\ (values f = values b ->
      lines r = [print_args ["good"; ljust 80 (utf8 decode f); fn_f; fn_b]]%string)
  /\ (values f <> values b ->
      lines r =
        print_args ["bad "; ljust 80 (utf8 decode f); fn_f; fn_b]%string
        :: ((fun i => "# fs " ++ i)%string
              <$> (utf8 decode f :: (grid_line f <$> range 1 13)))
        ++ ((fun i => "# bs " ++ i)%string
              <$> (utf8 decode b :: (grid_line b <$> range 1 13)))).
Proof.
  intros Hf Hb. cbn zeta. unfold main. cbn [length].
  change (Z.of_nat 2) with (0 + 2). rewrite (pair_positions_step 0) by lia.
  change (range_step 0 0 2) with (@nil Z). cbn [fmap list_fmap run_each].
  rewrite main_pair_first, Hf. cbn [try_run]. rewrite Hb. cbn [try_run].
  unfold report.
  rewrite (read_card_dump _ _ _ Hf), (read_card_dump _ _ _ Hb).
  destruct (decide (values f = values b)) as [Heq|Hne].
  - split; [reflexivity|]. split; [intros _; reflexivity | intros Hne; contradiction].
  - split; [reflexivity|]. split; [intros Heq; contradiction|].
    intros _. unfold run_then, print_each. cbn [ending lines].
    by rewrite app_nil_r.
Qed.

(** X16: with an odd number of file arguments [main] does not end
    normally: it ends with an exception, at the latest the [IndexError]
    of the missing back image of the last file. When the pairs before
    the last file are handled without an exception and the front image
    of the last file is read, it is that [IndexError], after the lines
    of the pairs. With an empty [argv], [argv.pop(0)] raises
    [IndexError] at once. *)
Theorem main_odd_arguments prog args :
  Nat.Odd (length args) ->
  (exists e, ending (main linregress imread decode (prog :: args)) = Raise e)
  /\ (forall pre fn f,
        args = pre ++ [fn] ->
        ending (main linregress imread decode (prog :: pre)) = Ok () ->
        read_card linregress imread fn true = Ok f ->
        main linregress imread decode (prog :: args) =
        {| lines := lines (main linregress imread decode (prog :: pre));
           ending := Raise IndexError |})
  /\ main linregress imread decode [] = raise_run IndexError.
Proof.
  intros [m Hm]. split; [|split; [|reflexivity]].
  - unfold main.
    apply (run_each_raises _ _ (Z.of_nat (length args) - 1)).
    + apply elem_of_range_step; [lia|]. split; [lia|].
      replace (Z.of_nat (length args) - 1 - 0) with (Z.of_nat m * 2) by lia.
      apply Z.mod_mul. lia.
    + unfold main_pair.
      destruct (list_index_some args (Z.of_nat (length args) - 1)) as [fn_f ->]; [lia|].
      cbn [try_run].
      destruct (read_card linregress imread fn_f true) as [f|e]; [|by exists e].
      cbn [try_run]. rewrite list_index_beyond by lia. by exists IndexError.
  - intros pre fn f -> Hpre Hf.
    rewrite length_app in Hm. cbn [length] in Hm.
    rewrite (main_last prog fn m pre) by lia.
    rewrite main_single, Hf. cbn [try_run].
    unfold run_then. rewrite Hpre. unfold raise_run. cbn [lines ending].
    by rewrite app_nil_r.
Qed.
End Main.

Lemma main_reports_pair_witness :
  exists line,
    lines (main const_fit (fun _ => Ok card_scan) latin1
             ["prog"; "f.png"; "b.png"]%string)
    = [line].
Proof.
  pose proof card_scan_read_eq as Hf. unfold card_scan_read in Hf.
  assert (Hb : exists b, PunchedCard const_fit card_scan false false = Ok b
                         /\ values b = replicate 80 0).
  { rewrite PunchedCard_back, card_scan_read_eq. unfold card_scan_read.
    rewrite bind_Ok. eexists. split; [reflexivity|]. by vm_compute. }
  destruct Hb as (b & Hb & Hvb).
  eexists.
  apply (main_reports_pair const_fit (fun _ => Ok card_scan) latin1
           "prog" "f.png" "b.png" _ b Hf Hb).
  rewrite Hvb. by vm_compute.
Defined.

Lemma main_odd_arguments_witness :
  main const_fit (fun _ => Ok card_scan) latin1 ["prog"; "f.png"]%string
  = raise_run IndexError.
Proof.
  pose proof card_scan_read_eq as Hf. unfold card_scan_read in Hf.
  refine (proj1 (proj2 (main_odd_arguments const_fit (fun _ => Ok card_scan) latin1
                          "prog" ["f.png"%string] _)) [] _ _ eq_refl eq_refl Hf).
  exists 0%nat. reflexivity.
Defined.

(** ** [stipple] *)

(** X17: [stipple] alternates in runs of 8: it is 255 exactly where the
    remainder of x modulo 16 is 8 or more, and 0 elsewhere, for negative
    x as well. *)
Theorem stipple_runs_of_eight x :
  stipple x = if 8 <=? x mod 16 then 255 else 0.
Proof.
  unfold stipple.
  assert (Hland : Z.land x 8 = if Z.testbit x 3 then 8 else 0).
  { apply Z.bits_inj'. intros n Hn. rewrite Z.land_spec.
    change 8 with (2 ^ 3). rewrite Z.pow2_bits_eqb by lia.
    destruct (Z.eqb_spec 3 n) as [<- | Hne].
    - rewrite andb_true_r. destruct (Z.testbit x 3) eqn:E.
      + by rewrite Z.pow2_bits_true.
      + by rewrite Z.bits_0.
    - rewrite andb_false_r. destruct (Z.testbit x 3).
      + by rewrite Z.pow2_bits_false.
      + by rewrite Z.bits_0. }
  rewrite Hland.
  pose proof (Z.testbit_spec' x 3 ltac:(lia)) as Hbit. change (2 ^ 3) with 8 in Hbit.
  pose proof (Z.rem_mul_r x 8 2 ltac:(lia) ltac:(lia)) as Hsplit.
  change (8 * 2) with 16 in Hsplit.
  pose proof (Z.mod_pos_bound x 8 ltac:(lia)) as Hlow.
  destruct (Z.testbit x 3); cbn [Z.b2z] in Hbit;
    destruct (Z.leb_spec 8 (x mod 16)); try reflexivity; exfalso; lia.
Qed.
